(** * CloudWatch Logs exporter: export orchestration and task polling

    A shallow embedding of [serverless-cloudwatch-logs-exporter.py].

    The Python dictionaries of fixed shape that the program passes around
    ([{'status', 'error_message', ...}]) are records; the empty dictionary
    [{}] stored under ['tsk_info'] / ['task_info'] is [None].

    The AWS services, the clock and the uuid generator are external.  They are
    gathered in a [Provider]: every operation answers as a function of the
    history of calls made so far (the [World]), so a provider may answer the
    same request differently at different moments of a run.  Each service
    call and each [time.sleep] appends one [Event] to the history.

    The two [while True] loops take a fuel argument; [None] means that the
    fuel ran out before the loop was left.  Logging and [print] are left out.

    A service call returns or raises.  [does_bucket_exists] catches
    [ClientError] only, so [head_bucket] has two ways to raise: with a
    [ClientError], or with another exception, which nothing catches.  The
    other calls sit under an [except Exception].  An exception that nothing
    catches ends the function and its callers: such functions give a
    [Completion], [Returns] or [Raises].  Building a client with
    [boto3.client] is taken not to fail.

    A naive [datetime] is bounded as in Python, and date arithmetic out of
    these bounds raises [OverflowError].  [timestamp()] is computed in
    binary64 with the primitive floats, from the epoch second that the
    provider's local time zone gives to the datetime. *)

From Stdlib Require Import ZArith List String Ascii Bool Lia DecimalString Floats.
Import ListNotations.
Open Scope Z_scope.
Open Scope list_scope.

(** ** Strings *)

(** [str(n)] for an integer. *)
Definition str (z : Z) : string := NilZero.string_of_int (Z.to_int z).

(** An f-string or a chain of [+] on strings: the pieces, concatenated. *)
Definition fstring (parts : list string) : string := String.concat "" parts.

(** [s.replace(a, b)] for one-character [a] and [b]. *)
Fixpoint replace (a b : ascii) (s : string) : string :=
  match s with
  | EmptyString => EmptyString
  | String c rest => String (if Ascii.eqb c a then b else c) (replace a b rest)
  end.

(** [s[1:]] *)
Definition drop_first (s : string) : string :=
  match s with
  | EmptyString => EmptyString
  | String _ rest => rest
  end.

(** ** Exceptions that nothing catches *)

Inductive Completion (A : Type) : Type :=
| Returns (a : A)
| Raises (e : string).

Arguments Returns {A} a.
Arguments Raises {A} e.

Definition and_then {A B : Type} (c : Completion A) (k : A -> Completion B)
  : Completion B :=
  match c with
  | Returns a => k a
  | Raises e => Raises e
  end.

Notation "'let*' x ':=' c 'in' k" := (and_then c (fun x => k))
  (at level 10, x name, c at level 100, k at level 200).

(** ** Floats *)

(** [float(z)] for an integer that fits a C [long long]. *)
Definition float_of_Z (z : Z) : float :=
  if z <? 0 then PrimFloat.opp (PrimFloat.of_uint63 (Uint63.of_Z (- z)))
  else PrimFloat.of_uint63 (Uint63.of_Z z).

(** [int(x)] for a finite float: the integer part, truncated towards zero. *)
Definition int (x : float) : Z :=
  match Prim2SF x with
  | S754_finite s m e =>
      let v := if 0 <=? e then Z.pos m * 2 ^ e else Z.pos m / 2 ^ (- e) in
      if s then - v else v
  | _ => 0
  end.

(** ** Dates

    A naive [datetime] is the number of microseconds since
    1970-01-01T00:00:00 on the naive time line, from 0001-01-01T00:00:00 to
    9999-12-31T23:59:59.999999. *)
Module Datetime.

Definition datetime := Z.

Definition us_per_day : Z := 86400000000.

(** [datetime.min] and [datetime.max] *)
Definition min : datetime := -62135596800000000.
Definition max : datetime := 253402300799999999.

(** The length of [days] days. *)
Definition days (days : Z) : Z := days * us_per_day.

(** [datetime.timedelta(days = d)] *)
Definition timedelta (d : Z) : Completion Z :=
  if Z.abs d <=? 999999999 then Returns (days d)
  else Raises (fstring ["days="; str d; "; must have magnitude <= 999999999"]%string).

(** [dt - td] *)
Definition sub (dt : datetime) (td : Z) : Completion datetime :=
  let r := dt - td in
  if (min <=? r) && (r <=? max) then Returns r
  else Raises "date value out of range".

(** [dt.timestamp()] for a naive datetime: the epoch second of its second
    in the local zone, plus its microseconds, in binary64. *)
Definition timestamp (local_to_seconds : Z -> Z) (dt : datetime) : float :=
  PrimFloat.add (float_of_Z (local_to_seconds (dt / 1000000)))
    (PrimFloat.div (float_of_Z (dt mod 1000000)) 1e6%float).

(** [int(dt.timestamp() * 1000)] *)
Definition timestamp_ms (local_to_seconds : Z -> Z) (dt : datetime) : Z :=
  int (PrimFloat.mul (timestamp local_to_seconds dt) 1000%float).

(** The proleptic Gregorian date of a day number (days since 1970-01-01),
    as year, month, day. *)
Definition civil_from_days (days : Z) : Z * Z * Z :=
  let z := days + 719468 in
  let era := z / 146097 in
  let doe := z - era * 146097 in
  let yoe := (doe - doe / 1460 + doe / 36524 - doe / 146096) / 365 in
  let y := yoe + era * 400 in
  let doy := doe - (365 * yoe + yoe / 4 - yoe / 100) in
  let mp := (5 * doy + 2) / 153 in
  let d := doy - (153 * mp + 2) / 5 + 1 in
  let m := if mp <? 10 then mp + 3 else mp - 9 in
  (if m <=? 2 then y + 1 else y, m, d).

Definition year (dt : datetime) : Z := fst (fst (civil_from_days (dt / us_per_day))).
Definition month (dt : datetime) : Z := snd (fst (civil_from_days (dt / us_per_day))).
Definition day (dt : datetime) : Z := snd (civil_from_days (dt / us_per_day)).

End Datetime.

(** [gen_ymd]: the string "Y-M-D" of a datetime (no zero padding). *)
Definition gen_ymd (t : Datetime.datetime) : string :=
  fstring [str (Datetime.year t); "-"; str (Datetime.month t); "-"; str (Datetime.day t)]%string.

(** ** Data *)

(** A log group as [describe_log_groups] lists it. *)
Record LogGroup := {
  logGroupName : string;
  arn : string
}.

(** One element of ['exportTasks'] in a [describe_export_tasks] response;
    [status_code] is [tsk_info['status']['code']]. *)
Record ExportTask := {
  taskId : string;
  status_code : string;
  status_message : string
}.

(** The keyword arguments of [create_export_task]. *)
Record ExportTaskRequest := {
  taskName : string;
  req_logGroupName : string;
  fromTime : Z;
  to : Z;
  destination : string;
  destinationPrefix : string
}.

(** The dictionary [global_vars]. *)
Record GlobalVars := {
  gv_status : bool;
  gv_error_message : string;
  Owner : string;
  Environment : string;
  aws_region : string;
  tag_name : string;
  retention_days : option Z;
  cw_logs_to_export : list string;
  log_dest_bkt : string;
  time_out : option Z
}.

(** ** The outside world *)

Inductive Event :=
| DescribeLogGroups (nextToken : option string)
| HeadBucket (Bucket : string)
| CreateExportTask (req : ExportTaskRequest)
| DescribeExportTasks (tsk_id : string)
| Sleep (seconds : Z).

Definition World := list Event.

(** [head_bucket] returns, raises a [ClientError] with an error code, or
    raises an exception that is not a [ClientError]. *)
Inductive HeadBucketResponse :=
| HeadBucketOk
| HeadBucketClientError (code : string) (msg : string)
| HeadBucketRaises (msg : string).

Inductive CreateExportTaskResponse :=
| CreateExportTaskOk (tsk_id : string)
| CreateExportTaskRaises (msg : string).

Inductive DescribeExportTasksResponse :=
| DescribeExportTasksOk (exportTasks : list ExportTask)
| DescribeExportTasksRaises (msg : string).

Record LogGroupsPage := {
  logGroups : list LogGroup;
  nextToken : option string
}.

Inductive DescribeLogGroupsResponse :=
| DescribeLogGroupsOk (page : LogGroupsPage)
| DescribeLogGroupsRaises (msg : string).

(** [local_to_seconds] is the local time zone: the epoch second of a second
    of the naive time line. *)
Record Provider := {
  now : World -> Datetime.datetime;
  local_to_seconds : Z -> Z;
  uuid4 : World -> string;
  head_bucket : World -> string -> HeadBucketResponse;
  create_export_task : World -> ExportTaskRequest -> CreateExportTaskResponse;
  describe_export_tasks : World -> string -> DescribeExportTasksResponse;
  describe_log_groups : World -> option string -> DescribeLogGroupsResponse
}.

(** ** Observations on a history *)

Definition is_poll (e : Event) : bool :=
  match e with DescribeExportTasks _ => true | _ => false end.

(** The durations slept, in order. *)
Definition sleeps (w : World) : list Z :=
  flat_map (fun e => match e with Sleep s => [s] | _ => [] end) w.

(** The number of status polls. *)
Definition polls (w : World) : nat := List.length (filter is_poll w).

(** The export requests submitted, in order. *)
Definition submissions (w : World) : list ExportTaskRequest :=
  flat_map (fun e => match e with CreateExportTask r => [r] | _ => [] end) w.

(** ** [set_global_vars] *)

Definition set_global_vars : GlobalVars := {|
  gv_status := true;
  gv_error_message := "";
  Owner := "Mystique";
  Environment := "Prod";
  aws_region := "us-east-1";
  tag_name := "serverless_cloudwatch_logs_exporter";
  retention_days := Some 90;
  cw_logs_to_export := ["/aws/lambda/indian-space-facts"; "/aws/lambda/Asislambda"]%string;
  log_dest_bkt := "cw-log-exports-01";
  time_out := Some 300
|}.

(** ** [does_bucket_exists] *)

Record BucketStatus := {
  bkt_status : bool;
  bkt_error_message : string
}.

Definition does_bucket_exists (P : Provider) (bucket_name : string) (w : World)
  : Completion BucketStatus * World :=
  let w1 := w ++ [HeadBucket bucket_name] in
  match head_bucket P w bucket_name with
  | HeadBucketOk => (Returns {| bkt_status := true; bkt_error_message := "" |}, w1)
  | HeadBucketClientError code msg =>
      if String.eqb code "404"
      then (Returns {| bkt_status := false; bkt_error_message := msg |}, w1)
      else (Returns {| bkt_status := false; bkt_error_message := msg |}, w1)
  | HeadBucketRaises msg => (Raises msg, w1)
  end.

(** ** [get_cloudwatch_log_groups] and [filter_logs_to_export] *)

Record LogGroupsResp := {
  lgs_status : bool;
  log_groups : list LogGroup;
  lgs_error_message : string
}.

(** The [while True] loop over the pages that follow the first one. *)
Fixpoint next_pages (fuel : nat) (P : Provider) (token : option string)
    (acc : list LogGroup) (w : World) : option (LogGroupsResp * World) :=
  match fuel with
  | O => None
  | S fuel' =>
      let w1 := w ++ [DescribeLogGroups token] in
      match describe_log_groups P w token with
      | DescribeLogGroupsRaises msg =>
          Some ({| lgs_status := false; log_groups := acc; lgs_error_message := msg |}, w1)
      | DescribeLogGroupsOk page =>
          let acc' := acc ++ logGroups page in
          match nextToken page with
          | Some (String _ _) => next_pages fuel' P (nextToken page) acc' w1
          | _ => Some ({| lgs_status := true; log_groups := acc'; lgs_error_message := "" |}, w1)
          end
      end
  end.

Definition get_cloudwatch_log_groups (fuel : nat) (P : Provider) (global_vars : GlobalVars)
    (w : World) : option (LogGroupsResp * World) :=
  let w1 := w ++ [DescribeLogGroups None] in
  match describe_log_groups P w None with
  | DescribeLogGroupsRaises msg =>
      Some ({| lgs_status := false; log_groups := []; lgs_error_message := msg |}, w1)
  | DescribeLogGroupsOk page =>
      match nextToken page with
      | Some (String _ _) => next_pages fuel P (nextToken page) (logGroups page) w1
      | _ => Some ({| lgs_status := true; log_groups := logGroups page;
                      lgs_error_message := "" |}, w1)
      end
  end.

Definition filter_logs_to_export (global_vars : GlobalVars) (lgs : LogGroupsResp)
  : LogGroupsResp :=
  fold_left
    (fun resp_data lg =>
       if existsb (String.eqb (logGroupName lg)) (cw_logs_to_export global_vars)
       then {| lgs_status := true;
               log_groups := log_groups resp_data ++ [lg];
               lgs_error_message := lgs_error_message resp_data |}
       else resp_data)
    (log_groups lgs)
    {| lgs_status := false; log_groups := []; lgs_error_message := "" |}.

(** ** [get_tsk_status] *)

Record TskStatus := {
  ts_status : bool;
  tsk_info : option ExportTask;
  ts_error_message : string
}.

(** What one turn of the [while True] loop does: go round again with a new
    counter, or leave the loop with the answer. *)
Inductive Turn :=
| Again (t : Z) (w : World)
| Leave (resp_data : TskStatus) (w : World).

(** The body of the loop, with counter [t]. *)
Definition poll_once (P : Provider) (tsk_id : string) (time_out : Z) (t : Z) (w : World)
  : Turn :=
  let w1 := w ++ [DescribeExportTasks tsk_id] in
  let raised (e : string) :=
    Leave {| ts_status := false; tsk_info := None;
             ts_error_message :=
               fstring ["Unable to verify status of task:"; tsk_id; ". ERROR:"; e]%string |} w1 in
  match describe_export_tasks P w tsk_id with
  | DescribeExportTasksRaises e => raised e
  | DescribeExportTasksOk [] => raised "list index out of range"%string
  | DescribeExportTasksOk (info :: _) =>
      if t >? time_out then
        Leave {| ts_status := false; tsk_info := Some info;
                 ts_error_message :=
                   fstring ["Task:"; tsk_id; " is still running. Status:";
                            status_code info]%string |} w1
      else if negb (String.eqb (status_code info) "COMPLETED") then
        let t := t * 2 in
        Again t (w1 ++ [Sleep t])
      else
        Leave {| ts_status := true; tsk_info := Some info; ts_error_message := "" |} w1
  end.

Fixpoint poll_loop (fuel : nat) (P : Provider) (tsk_id : string) (time_out : Z) (t : Z)
    (w : World) : option (TskStatus * World) :=
  match fuel with
  | O => None
  | S fuel' =>
      match poll_once P tsk_id time_out t w with
      | Again t' w' => poll_loop fuel' P tsk_id time_out t' w'
      | Leave resp_data w' => Some (resp_data, w')
      end
  end.

(** [if not time_out: time_out = 300]: an absent or zero timeout is 300. *)
Definition timeout_or_default (time_out : option Z) : Z :=
  match time_out with
  | None => 300
  | Some x => if x =? 0 then 300 else x
  end.

Definition get_tsk_status (fuel : nat) (P : Provider) (tsk_id : string)
    (time_out : option Z) (w : World) : option (TskStatus * World) :=
  let time_out := timeout_or_default time_out in
  let t := 3 in
  poll_loop fuel P tsk_id time_out t w.

(** ** [export_cw_logs_to_s3] *)

Record ExportResp := {
  status : bool;
  task_info : option ExportTask;
  error_message : string
}.

(** [if not retention_days: retention_days = 90]: an absent or zero offset
    is 90. *)
Definition retention_or_default (retention_days : option Z) : Z :=
  match retention_days with
  | None => 90
  | Some r => if r =? 0 then 90 else r
  end.

(** The export period computed from [now_time]: the datetimes [n1_day] and
    [n_day] and their millisecond timestamps [f_time] and [t_time]. *)
Record Period := {
  n1_day : Datetime.datetime;
  n_day : Datetime.datetime;
  f_time : Z;
  t_time : Z
}.

Definition export_period (P : Provider) (retention_days : option Z)
    (now_time : Datetime.datetime) : Completion Period :=
  let retention_days := retention_or_default retention_days in
  let* td1 := Datetime.timedelta (retention_days + 1) in
  let* n1_day := Datetime.sub now_time td1 in
  let* td := Datetime.timedelta retention_days in
  let* n_day := Datetime.sub now_time td in
  Returns {| n1_day := n1_day;
             n_day := n_day;
             f_time := Datetime.timestamp_ms (local_to_seconds P) n1_day;
             t_time := Datetime.timestamp_ms (local_to_seconds P) n_day |}.

(** [obj_prefix] is computed by the source and never used; it is left out.
    The period and the bucket check come before the [try]: what they raise
    is not caught. *)
Definition export_cw_logs_to_s3 (fuel : nat) (P : Provider) (global_vars : GlobalVars)
    (log_group_name : string) (retention_days : option Z) (bucket_name : string)
    (w : World) : option (Completion ExportResp * World) :=
  let now_time := now P w in
  match export_period P retention_days now_time with
  | Raises e => Some (Raises e, w)
  | Returns period =>
      let d_prefix :=
        fstring [drop_first (replace "/" "-" log_group_name); "/";
                 gen_ymd (n1_day period)]%string in
      match does_bucket_exists P bucket_name w with
      | (Raises e, w1) => Some (Raises e, w1)
      | (Returns resp, w1) =>
          if negb (bkt_status resp) then
            Some (Returns {| status := false; task_info := None;
                             error_message := bkt_error_message resp |}, w1)
          else
            let req := {| taskName := uuid4 P w1;
                          req_logGroupName := log_group_name;
                          fromTime := f_time period;
                          to := t_time period;
                          destination := bucket_name;
                          destinationPrefix := d_prefix |} in
            let w2 := w1 ++ [CreateExportTask req] in
            match create_export_task P w1 req with
            | CreateExportTaskRaises e =>
                Some (Returns {| status := false; task_info := None;
                                 error_message := e |}, w2)
            | CreateExportTaskOk tsk_id =>
                match get_tsk_status fuel P tsk_id (time_out global_vars) w2 with
                | None => None
                | Some (r, w3) =>
                    if bkt_status resp then
                      Some (Returns {| status := true; task_info := tsk_info r;
                                       error_message := "" |}, w3)
                    else
                      Some (Returns {| status := false; task_info := None;
                                       error_message := ts_error_message r |}, w3)
                end
            end
      end
  end.

(** ** [lambda_handler] *)

Record Listing := {
  all_logs : LogGroupsResp;
  listed_cw_logs_to_export : list string;
  filtered_logs : LogGroupsResp
}.

Record RunResp := {
  run_status : bool;
  run_error_message : string;
  lgs : option Listing;
  export_tasks : option (list ExportResp)
}.

(** The [for lg in f_lgs.get('log_groups')] loop; [export_tasks] is the list
    the loop appends to.  An export that raises ends the loop. *)
Fixpoint export_each (fuel : nat) (P : Provider) (global_vars : GlobalVars)
    (lgs : list LogGroup) (export_tasks : list ExportResp) (w : World)
  : option (Completion (list ExportResp) * World) :=
  match lgs with
  | [] => Some (Returns export_tasks, w)
  | lg :: rest =>
      match export_cw_logs_to_s3 fuel P global_vars (logGroupName lg)
              (retention_days global_vars) (log_dest_bkt global_vars) w with
      | None => None
      | Some (Raises e, w1) => Some (Raises e, w1)
      | Some (Returns resp, w1) =>
          export_each fuel P global_vars rest (export_tasks ++ [resp]) w1
      end
  end.

Definition no_log_group_message : string :=
  "There are no log group matching the filter or Unable to get a filtered list of cloudwatch Logs.".

(** [bool(l)] for a list. *)
Definition truthy {A} (l : list A) : bool :=
  match l with [] => false | _ :: _ => true end.

(** The body of [lambda_handler] once [global_vars] is set. *)
Definition lambda_handler_with (global_vars : GlobalVars) (fuel : nat) (P : Provider)
    (w : World) : option (Completion RunResp * World) :=
  if negb (gv_status global_vars) then
    Some (Returns {| run_status := false;
                     run_error_message := gv_error_message global_vars;
                     lgs := None; export_tasks := None |}, w)
  else
    match get_cloudwatch_log_groups fuel P global_vars w with
    | None => None
    | Some (lgs, w1) =>
        if negb (lgs_status lgs) then
          Some (Returns {| run_status := false;
                           run_error_message := lgs_error_message lgs;
                           lgs := None; export_tasks := None |}, w1)
        else
          let f_lgs := filter_logs_to_export global_vars lgs in
          if negb (lgs_status f_lgs || truthy (log_groups f_lgs)) then
            Some (Returns
                    {| run_status := false;
                       run_error_message :=
                         fstring [no_log_group_message; " ERROR:";
                                  lgs_error_message f_lgs]%string;
                       lgs := Some {| all_logs := lgs;
                                      listed_cw_logs_to_export :=
                                        cw_logs_to_export global_vars;
                                      filtered_logs := f_lgs |};
                       export_tasks := None |}, w1)
          else
            match export_each fuel P global_vars (log_groups f_lgs) [] w1 with
            | None => None
            | Some (Raises e, w2) => Some (Raises e, w2)
            | Some (Returns tasks, w2) =>
                Some (Returns {| run_status := true; run_error_message := "";
                                 lgs := None; export_tasks := Some tasks |}, w2)
            end
    end.

Definition lambda_handler (fuel : nat) (P : Provider) (w : World)
  : option (Completion RunResp * World) :=
  lambda_handler_with set_global_vars fuel P w.

(** ** The number of polls a timeout allows *)

(** The number of turns of the loop up to and including the one at which a
    counter that starts at [t] and doubles every turn exceeds [time_out];
    [n] bounds the number of doublings looked at. *)
Fixpoint turns_until (n : nat) (time_out t : Z) : nat :=
  match n with
  | O => 1
  | S n' => if t >? time_out then 1 else S (turns_until n' time_out (t * 2))
  end.

Definition polls_before_timeout (time_out : Z) : nat :=
  turns_until (Z.to_nat time_out) time_out 3.

(** A reply of the poller that reports a timeout: a failure that carries the
    last task information read. *)
Definition is_timed_out (r : TskStatus) : bool :=
  negb (ts_status r) && match tsk_info r with Some _ => true | None => false end.

(** ** Providers used in the examples *)

Module Examples.

Definition task (code : string) : ExportTask :=
  {| taskId := "task-1"; status_code := code; status_message := "" |}.

(** A provider whose [describe_export_tasks] answers with the status codes
    of [script], one per poll, and raises once the script is used up.  The
    bucket check fails for the source checks listed in [bad_checks]
    (numbered from 0 in the order of the calls). *)
Definition scripted (script : list string) (bad_checks : list nat) : Provider := {|
  now := fun _ => 1700000000123456;
  local_to_seconds := fun s => s;
  uuid4 := fun w => fstring ["uuid-"; str (Z.of_nat (List.length w))]%string;
  head_bucket := fun w _ =>
    let k := List.length (filter (fun e => match e with HeadBucket _ => true | _ => false end) w) in
    if existsb (Nat.eqb k) bad_checks
    then HeadBucketClientError "404" "Not Found"
    else HeadBucketOk;
  create_export_task := fun _ _ => CreateExportTaskOk "task-1";
  describe_export_tasks := fun w _ =>
    match nth_error script (polls w) with
    | Some code => DescribeExportTasksOk [task code]
    | None => DescribeExportTasksRaises "ThrottlingException"
    end;
  describe_log_groups := fun _ _ =>
    DescribeLogGroupsOk
      {| logGroups := [ {| logGroupName := "/aws/lambda/indian-space-facts"; arn := "arn:a" |};
                        {| logGroupName := "/aws/lambda/other"; arn := "arn:o" |};
                        {| logGroupName := "/aws/lambda/Asislambda"; arn := "arn:b" |} ];
         nextToken := None |}
|}.

(** The provider [scripted [] []] with a task that shows the status [code]
    at every poll. *)
Definition stuck (code : string) : Provider := {|
  now := now (scripted [] []);
  local_to_seconds := local_to_seconds (scripted [] []);
  uuid4 := uuid4 (scripted [] []);
  head_bucket := head_bucket (scripted [] []);
  create_export_task := create_export_task (scripted [] []);
  describe_export_tasks := fun _ _ => DescribeExportTasksOk [task code];
  describe_log_groups := describe_log_groups (scripted [] [])
|}.

(** The provider [scripted [] []] with an export service that rejects
    every request. *)
Definition rejecting : Provider := {|
  now := now (scripted [] []);
  local_to_seconds := local_to_seconds (scripted [] []);
  uuid4 := uuid4 (scripted [] []);
  head_bucket := head_bucket (scripted [] []);
  create_export_task := fun _ _ => CreateExportTaskRaises "LimitExceededException";
  describe_export_tasks := describe_export_tasks (scripted [] []);
  describe_log_groups := describe_log_groups (scripted [] [])
|}.

(** The provider [scripted script []] without the bucket. *)
Definition no_bucket (script : list string) : Provider := {|
  now := now (scripted script []);
  local_to_seconds := local_to_seconds (scripted script []);
  uuid4 := uuid4 (scripted script []);
  head_bucket := fun _ _ => HeadBucketClientError "403" "Forbidden";
  create_export_task := create_export_task (scripted script []);
  describe_export_tasks := describe_export_tasks (scripted script []);
  describe_log_groups := describe_log_groups (scripted script [])
|}.

(** The provider [scripted script []] with a catalog of two pages; the
    second page is read with the token of the first one.  With
    [broken = true] reading the second page raises. *)
Definition two_pages (script : list string) (broken : bool) : Provider := {|
  now := now (scripted script []);
  local_to_seconds := local_to_seconds (scripted script []);
  uuid4 := uuid4 (scripted script []);
  head_bucket := head_bucket (scripted script []);
  create_export_task := create_export_task (scripted script []);
  describe_export_tasks := describe_export_tasks (scripted script []);
  describe_log_groups := fun _ token =>
    match token with
    | None =>
        DescribeLogGroupsOk
          {| logGroups := [ {| logGroupName := "/aws/lambda/Asislambda"; arn := "arn:b" |};
                            {| logGroupName := "/aws/lambda/other"; arn := "arn:o" |} ];
             nextToken := Some "page-2"%string |}
    | Some _ =>
        if broken then DescribeLogGroupsRaises "ThrottlingException"
        else
          DescribeLogGroupsOk
            {| logGroups := [ {| logGroupName := "/aws/lambda/indian-space-facts";
                                 arn := "arn:a" |} ];
               nextToken := None |}
    end
|}.

(** The provider [scripted script []] with a bucket service that cannot
    be reached from the check numbered [k] on (from 0): [head_bucket] then
    raises an exception that is not a [ClientError]. *)
Definition unreachable (script : list string) (k : nat) : Provider := {|
  now := now (scripted script []);
  local_to_seconds := local_to_seconds (scripted script []);
  uuid4 := uuid4 (scripted script []);
  head_bucket := fun w _ =>
    if (k <=? List.length
                (filter (fun e => match e with HeadBucket _ => true | _ => false end) w))%nat
    then HeadBucketRaises "Could not connect to the endpoint URL"
    else HeadBucketOk;
  create_export_task := create_export_task (scripted script []);
  describe_export_tasks := describe_export_tasks (scripted script []);
  describe_log_groups := describe_log_groups (scripted script [])
|}.

(** The provider [scripted [] []] at another instant. *)
Definition at_instant (now_time : Datetime.datetime) : Provider := {|
  now := fun _ => now_time;
  local_to_seconds := local_to_seconds (scripted [] []);
  uuid4 := uuid4 (scripted [] []);
  head_bucket := head_bucket (scripted [] []);
  create_export_task := create_export_task (scripted [] []);
  describe_export_tasks := describe_export_tasks (scripted [] []);
  describe_log_groups := describe_log_groups (scripted [] [])
|}.

(** The same provider with a catalog that holds none of the configured
    log groups. *)
Definition unrelated_catalog (P : Provider) : Provider := {|
  now := now P;
  local_to_seconds := local_to_seconds P;
  uuid4 := uuid4 P;
  head_bucket := head_bucket P;
  create_export_task := create_export_task P;
  describe_export_tasks := describe_export_tasks P;
  describe_log_groups := fun _ _ =>
    DescribeLogGroupsOk
      {| logGroups := [ {| logGroupName := "/aws/lambda/other"; arn := "arn:o" |} ];
         nextToken := None |}
|}.

End Examples.

(** ** Notions used to state the properties *)

(** The durations slept in [k] turns that follow a turn with counter [t]. *)
Fixpoint backoff (t : Z) (k : nat) : list Z :=
  match k with
  | O => []
  | S k' => (t * 2) :: backoff (t * 2) k'
  end.

(** The request that [export_cw_logs_to_s3] builds in history [w] for the
    period [period]. *)
Definition build_request (P : Provider) (log_group_name : string) (bucket_name : string)
    (w : World) (period : Period) : ExportTaskRequest :=
  {| taskName := uuid4 P (w ++ [HeadBucket bucket_name]);
     req_logGroupName := log_group_name;
     fromTime := f_time period;
     to := t_time period;
     destination := bucket_name;
     destinationPrefix :=
       fstring [drop_first (replace "/" "-" log_group_name); "/";
                gen_ymd (n1_day period)]%string |}.

(** The bucket check is answered: it passes or raises a [ClientError]. *)
Definition answered (r : HeadBucketResponse) : Prop :=
  match r with
  | HeadBucketRaises _ => False
  | _ => True
  end.

(** The dates of the export period are in range, whenever it is computed. *)
Definition dates_in_range (P : Provider) (retention_days : option Z) : Prop :=
  forall h, exists period, export_period P retention_days (now P h) = Returns period.

(** [exported fuel P gv w sources resps w']: exporting [sources] one after
    the other from history [w] gives the responses [resps], one per source
    and in the same order, and leaves the history [w']. *)
Inductive exported (fuel : nat) (P : Provider) (gv : GlobalVars)
  : World -> list LogGroup -> list ExportResp -> World -> Prop :=
| exported_nil w : exported fuel P gv w [] [] w
| exported_cons w lg rest resp w1 resps w2 :
    export_cw_logs_to_s3 fuel P gv (logGroupName lg) (retention_days gv)
      (log_dest_bkt gv) w = Some (Returns resp, w1) ->
    exported fuel P gv w1 rest resps w2 ->
    exported fuel P gv w (lg :: rest) (resp :: resps) w2.

(** The number of bucket checks. *)
Definition checks (w : World) : nat :=
  List.length (filter (fun e => match e with HeadBucket _ => true | _ => false end) w).

(** The time slept in all. *)
Definition total_slept (w : World) : Z := fold_right Z.add 0 (sleeps w).

(** What a poller that leaves its loop at turn [k] (from 0) has done, with
    counter [t] at its first turn: a poll at every turn and, between two
    turns, a sleep for the doubled counter. *)
Fixpoint poll_trace (tsk_id : string) (t : Z) (k : nat) : list Event :=
  match k with
  | O => [DescribeExportTasks tsk_id]
  | S k' => DescribeExportTasks tsk_id :: Sleep (t * 2) :: poll_trace tsk_id (t * 2) k'
  end.

(** The reply that goes with the answer of the last poll. *)
Definition reply_fits (tsk_id : string) (answer : DescribeExportTasksResponse)
    (r : TskStatus) : Prop :=
  let raised e :=
    r = {| ts_status := false; tsk_info := None;
           ts_error_message :=
             fstring ["Unable to verify status of task:"; tsk_id; ". ERROR:"; e]%string |} in
  match answer with
  | DescribeExportTasksRaises e => raised e
  | DescribeExportTasksOk [] => raised "list index out of range"%string
  | DescribeExportTasksOk (info :: _) =>
      r = {| ts_status := true; tsk_info := Some info; ts_error_message := "" |} /\
      status_code info = "COMPLETED"%string
      \/
      r = {| ts_status := false; tsk_info := Some info;
             ts_error_message :=
               fstring ["Task:"; tsk_id; " is still running. Status:";
                        status_code info]%string |}
  end.

(** A call of the listing that follows the first one: it passes a token
    that is not empty. *)
Definition is_next_page_call (e : Event) : Prop :=
  match e with
  | DescribeLogGroups (Some (String _ _)) => True
  | _ => False
  end.

(** * Properties *)

(** ** Histories *)

Lemma polls_app (w evs : World) : polls (w ++ evs) = (polls w + polls evs)%nat.
Proof. unfold polls. now rewrite filter_app, length_app. Qed.

Lemma sleeps_app (w evs : World) : sleeps (w ++ evs) = sleeps w ++ sleeps evs.
Proof. unfold sleeps. apply flat_map_app. Qed.

Lemma submissions_app (w evs : World) :
  submissions (w ++ evs) = submissions w ++ submissions evs.
Proof. unfold submissions. apply flat_map_app. Qed.

(** ** One turn of the polling loop *)

Lemma poll_once_again P tsk_id time_out t w t' w' :
  poll_once P tsk_id time_out t w = Again t' w' ->
  t' = t * 2 /\ t <= time_out /\
  w' = (w ++ [DescribeExportTasks tsk_id]) ++ [Sleep (t * 2)].
Proof.
  unfold poll_once.
  destruct (describe_export_tasks P w tsk_id) as [[|info rest]|e]; try discriminate.
  destruct (t >? time_out) eqn:Ht; try discriminate.
  destruct (negb (status_code info =? "COMPLETED")%string); try discriminate.
  intros H; inversion H; subst. repeat split. lia.
Qed.

Lemma poll_once_leave P tsk_id time_out t w r w' :
  poll_once P tsk_id time_out t w = Leave r w' ->
  w' = w ++ [DescribeExportTasks tsk_id] /\
  (is_timed_out r = true -> time_out < t).
Proof.
  unfold poll_once.
  destruct (describe_export_tasks P w tsk_id) as [[|info rest]|e].
  - intros H; inversion H; subst; split; [reflexivity | discriminate].
  - destruct (t >? time_out) eqn:Ht.
    + intros H; inversion H; subst; split; [reflexivity | intros _; lia].
    + destruct (negb (status_code info =? "COMPLETED")%string); try discriminate.
      intros H; inversion H; subst; split; [reflexivity | discriminate].
  - intros H; inversion H; subst; split; [reflexivity | discriminate].
Qed.

Lemma poll_once_over P tsk_id time_out t w :
  time_out < t ->
  exists r, poll_once P tsk_id time_out t w = Leave r (w ++ [DescribeExportTasks tsk_id]).
Proof.
  intros Ht. unfold poll_once.
  destruct (describe_export_tasks P w tsk_id) as [[|info rest]|e]; eauto.
  replace (t >? time_out) with true by lia. eauto.
Qed.

(** ** The polling loop *)

Lemma poll_loop_more_fuel fuel fuel' P tsk_id time_out t w x :
  poll_loop fuel P tsk_id time_out t w = Some x ->
  (fuel <= fuel')%nat ->
  poll_loop fuel' P tsk_id time_out t w = Some x.
Proof.
  revert fuel' t w. induction fuel as [|fuel IH]; intros fuel' t w H Hle.
  - discriminate.
  - destruct fuel' as [|fuel']; [lia|].
    simpl in *. destruct (poll_once P tsk_id time_out t w); auto.
    apply IH; [assumption | lia].
Qed.

Lemma turns_until_pos n time_out t : (1 <= turns_until n time_out t)%nat.
Proof. destruct n; simpl; [lia|]. destruct (t >? time_out); lia. Qed.

(** With counter [t > 0] and a timeout below [t * 2 ^ n], the loop is left
    within [turns_until n time_out t] turns; it polls once per turn, sleeps
    between two turns for the doubled counter, submits nothing, and a timeout
    is reported at the last of these turns only. *)
Lemma poll_loop_halts P tsk_id time_out :
  forall n t w,
    0 < t -> time_out < t * 2 ^ Z.of_nat n ->
    exists r w' k,
      poll_loop (turns_until n time_out t) P tsk_id time_out t w = Some (r, w') /\
      polls w' = (polls w + S k)%nat /\
      sleeps w' = sleeps w ++ backoff t k /\
      submissions w' = submissions w /\
      (S k <= turns_until n time_out t)%nat /\
      (is_timed_out r = true -> S k = turns_until n time_out t).
Proof.
  assert (Hone : forall w, polls (w ++ [DescribeExportTasks tsk_id]) = (polls w + 1)%nat)
    by (intros; now rewrite polls_app).
  assert (Hleave : forall n t w r w',
             poll_once P tsk_id time_out t w = Leave r w' ->
             (is_timed_out r = true -> 1%nat = turns_until n time_out t) ->
             polls w' = (polls w + 1)%nat /\
             sleeps w' = sleeps w ++ backoff t 0 /\
             submissions w' = submissions w /\
             (1 <= turns_until n time_out t)%nat /\
             (is_timed_out r = true -> 1%nat = turns_until n time_out t)).
  { intros n t w r w' H Hto. apply poll_once_leave in H as [-> _].
    rewrite Hone, sleeps_app, submissions_app. simpl. rewrite !app_nil_r.
    repeat split; auto. apply turns_until_pos. }
  induction n as [|n IH]; intros t w Hpos Hlt.
  - simpl in Hlt. destruct (poll_once_over P tsk_id time_out t w) as [r Hr]; [lia|].
    exists r, (w ++ [DescribeExportTasks tsk_id]), 0%nat.
    simpl. rewrite Hr. split; [reflexivity|].
    apply (Hleave 0%nat _ _ _ _ Hr). reflexivity.
  - simpl. destruct (t >? time_out) eqn:Ht.
    + destruct (poll_once_over P tsk_id time_out t w) as [r Hr]; [lia|].
      exists r, (w ++ [DescribeExportTasks tsk_id]), 0%nat.
      simpl. rewrite Hr. split; [reflexivity|].
      generalize (Hleave (S n) _ _ _ _ Hr). simpl. rewrite Ht. auto.
    + destruct (poll_once P tsk_id time_out t w) as [t' w1|r w1] eqn:Hturn.
      * destruct (poll_once_again _ _ _ _ _ _ _ Hturn) as (-> & _ & ->).
        destruct (IH (t * 2) ((w ++ [DescribeExportTasks tsk_id]) ++ [Sleep (t * 2)]))
          as (r & w' & k & Hrun & Hp & Hs & Hsub & Hle & Hto).
        { lia. }
        { rewrite Nat2Z.inj_succ, Z.pow_succ_r in Hlt by lia. lia. }
        exists r, w', (S k). cbn [poll_loop]. rewrite Hturn, Hrun.
        split; [reflexivity|].
        rewrite Hp, Hs, Hsub, !polls_app, !sleeps_app, !submissions_app.
        cbn [polls sleeps submissions flat_map filter is_poll List.length app backoff].
        rewrite !app_nil_r, <- app_assoc.
        split; [lia|]. split; [reflexivity|]. split; [reflexivity|].
        split; [lia|]. intros H. specialize (Hto H). lia.
      * exists r, w1, 0%nat. cbn [poll_loop]. rewrite Hturn.
        split; [reflexivity|].
        pose proof (poll_once_leave _ _ _ _ _ _ _ Hturn) as [_ Hto].
        generalize (Hleave (S n) _ _ _ _ Hturn). simpl. rewrite Ht.
        intros H. apply H. intros Hr. specialize (Hto Hr). lia.
Qed.

Lemma timeout_below_doublings (time_out : Z) :
  time_out < 3 * 2 ^ Z.of_nat (Z.to_nat time_out).
Proof.
  destruct (Z.le_gt_cases time_out 0) as [H|H].
  - replace (Z.to_nat time_out) with 0%nat by lia. simpl. lia.
  - rewrite Z2Nat.id by lia.
    pose proof (Z.pow_gt_lin_r 2 time_out). lia.
Qed.

(** The counter first exceeds the timeout at turn [turns_until n time_out t]. *)
Lemma turns_until_first : forall n time_out t,
    0 < t -> time_out < t * 2 ^ Z.of_nat n ->
    time_out < t * 2 ^ (Z.of_nat (turns_until n time_out t) - 1) /\
    (forall j, (S j < turns_until n time_out t)%nat -> t * 2 ^ Z.of_nat j <= time_out).
Proof.
  induction n as [|n IH]; intros time_out t Hpos Hlt.
  - simpl in *. split; [lia | intros j Hj; lia].
  - simpl. destruct (t >? time_out) eqn:Ht.
    + simpl. split; [lia | intros j Hj; lia].
    + destruct (IH time_out (t * 2)) as [Hfirst Hbefore]; auto; try lia.
      { rewrite Nat2Z.inj_succ, Z.pow_succ_r in Hlt by lia. lia. }
      pose proof (turns_until_pos n time_out (t * 2)) as Hp.
      split.
      * rewrite Nat2Z.inj_succ.
        replace (Z.succ (Z.of_nat (turns_until n time_out (t * 2))) - 1)
          with (Z.succ (Z.of_nat (turns_until n time_out (t * 2)) - 1)) by lia.
        rewrite Z.pow_succ_r by lia. lia.
      * intros [|j] Hj.
        { simpl. lia. }
        { rewrite Nat2Z.inj_succ, Z.pow_succ_r by lia.
          specialize (Hbefore j). lia. }
Qed.

Lemma polls_before_timeout_first (time_out : Z) :
  time_out < 3 * 2 ^ (Z.of_nat (polls_before_timeout time_out) - 1) /\
  (forall j, (S j < polls_before_timeout time_out)%nat -> 3 * 2 ^ Z.of_nat j <= time_out).
Proof.
  apply turns_until_first; [lia | apply timeout_below_doublings].
Qed.

(** [get_tsk_status] returns for every fuel that covers the polls the
    timeout allows, and always the same reply. *)
Lemma get_tsk_status_halts P tsk_id time_out w :
  exists r w' k,
    (forall fuel,
        (polls_before_timeout (timeout_or_default time_out) <= fuel)%nat ->
        get_tsk_status fuel P tsk_id time_out w = Some (r, w')) /\
    polls w' = (polls w + S k)%nat /\
    sleeps w' = sleeps w ++ backoff 3 k /\
    submissions w' = submissions w /\
    (S k <= polls_before_timeout (timeout_or_default time_out))%nat /\
    (is_timed_out r = true -> S k = polls_before_timeout (timeout_or_default time_out)).
Proof.
  set (T := timeout_or_default time_out).
  destruct (poll_loop_halts P tsk_id T (Z.to_nat T) 3 w)
    as (r & w' & k & Hrun & Hrest); [lia | apply timeout_below_doublings |].
  exists r, w', k. split; [|exact Hrest].
  intros fuel Hfuel. unfold get_tsk_status. fold T.
  eapply poll_loop_more_fuel; eauto.
Qed.

Lemma nth_backoff : forall k t i,
    (i < k)%nat -> nth i (backoff t k) 0 = t * 2 * 2 ^ Z.of_nat i.
Proof.
  induction k as [|k IH]; intros t i Hi; [lia|].
  destruct i as [|i]; simpl nth.
  - simpl. lia.
  - rewrite IH by lia. rewrite Nat2Z.inj_succ, Z.pow_succ_r by lia. lia.
Qed.

Lemma length_backoff : forall k t, List.length (backoff t k) = k.
Proof. induction k; simpl; auto. Qed.

(** ** What the poller does and replies *)

Lemma poll_once_leave_fits P tsk_id time_out t w r w' :
  poll_once P tsk_id time_out t w = Leave r w' ->
  w' = w ++ [DescribeExportTasks tsk_id] /\
  reply_fits tsk_id (describe_export_tasks P w tsk_id) r.
Proof.
  unfold poll_once, reply_fits.
  destruct (describe_export_tasks P w tsk_id) as [[|info rest]|e].
  - intros H; inversion H; subst; split; reflexivity.
  - destruct (t >? time_out).
    + intros H; inversion H; subst. split; [reflexivity | right; reflexivity].
    + destruct (status_code info =? "COMPLETED")%string eqn:Hc; cbn [negb];
        [|discriminate].
      intros H; inversion H; subst. split; [reflexivity|].
      left. split; [reflexivity | now apply String.eqb_eq].
  - intros H; inversion H; subst; split; reflexivity.
Qed.

Lemma poll_loop_effects P tsk_id time_out : forall fuel t w r w',
    poll_loop fuel P tsk_id time_out t w = Some (r, w') ->
    exists k w0,
      (k < fuel)%nat /\
      w' = w ++ poll_trace tsk_id t k /\
      w' = w0 ++ [DescribeExportTasks tsk_id] /\
      reply_fits tsk_id (describe_export_tasks P w0 tsk_id) r.
Proof.
  induction fuel as [|fuel IH]; intros t w r w' H; [discriminate|].
  cbn [poll_loop] in H.
  destruct (poll_once P tsk_id time_out t w) as [t1 w1|r1 w1] eqn:Hturn.
  - destruct (poll_once_again _ _ _ _ _ _ _ Hturn) as (-> & _ & ->).
    destruct (IH _ _ _ _ H) as (k & w0 & Hk & Hw & Hlast & Hfit).
    exists (S k), w0. split; [lia|]. split; [|split; assumption].
    rewrite Hw, <- !app_assoc. reflexivity.
  - inversion H; subst.
    destruct (poll_once_leave_fits _ _ _ _ _ _ _ Hturn) as [-> Hfit].
    exists 0%nat, w. split; [lia|]. repeat split; assumption.
Qed.

Lemma poll_trace_observed tsk_id : forall k t,
    sleeps (poll_trace tsk_id t k) = backoff t k /\
    polls (poll_trace tsk_id t k) = S k /\
    checks (poll_trace tsk_id t k) = 0%nat /\
    submissions (poll_trace tsk_id t k) = [].
Proof.
  induction k as [|k IH]; intros t.
  - repeat split.
  - destruct (IH (t * 2)) as (Hs & Hp & Hc & Hsub).
    cbn [poll_trace]. repeat split.
    + change (sleeps (DescribeExportTasks tsk_id :: Sleep (t * 2)
                        :: poll_trace tsk_id (t * 2) k))
        with (t * 2 :: sleeps (poll_trace tsk_id (t * 2) k)).
      now rewrite Hs.
    + change (polls (DescribeExportTasks tsk_id :: Sleep (t * 2)
                       :: poll_trace tsk_id (t * 2) k))
        with (S (polls (poll_trace tsk_id (t * 2) k))).
      now rewrite Hp.
    + exact Hc.
    + exact Hsub.
Qed.

Lemma get_tsk_status_same_reply fuel fuel' P tsk_id time_out w x y :
  get_tsk_status fuel P tsk_id time_out w = Some x ->
  get_tsk_status fuel' P tsk_id time_out w = Some y ->
  x = y.
Proof.
  unfold get_tsk_status. intros Hx Hy.
  apply poll_loop_more_fuel with (fuel' := Nat.max fuel fuel') in Hx; [|lia].
  apply poll_loop_more_fuel with (fuel' := Nat.max fuel fuel') in Hy; [|lia].
  congruence.
Qed.

(** What [get_tsk_status] leaves in the history and what it replies, for a
    run that returned. *)
Lemma get_tsk_status_effects fuel P tsk_id time_out w r w' :
  get_tsk_status fuel P tsk_id time_out w = Some (r, w') ->
  exists k w0,
    w' = w ++ poll_trace tsk_id 3 k /\
    (S k <= polls_before_timeout (timeout_or_default time_out))%nat /\
    (is_timed_out r = true -> S k = polls_before_timeout (timeout_or_default time_out)) /\
    w' = w0 ++ [DescribeExportTasks tsk_id] /\
    reply_fits tsk_id (describe_export_tasks P w0 tsk_id) r.
Proof.
  intros Hrun.
  destruct (get_tsk_status_halts P tsk_id time_out w)
    as (r0 & w0' & k0 & Hall & Hp & _ & _ & Hle & Hto).
  pose proof (get_tsk_status_same_reply _ _ _ _ _ _ _ _ Hrun (Hall _ (Nat.le_refl _))) as E.
  inversion E; subst r0 w0'. clear E.
  destruct (poll_loop_effects _ _ _ _ _ _ _ _ Hrun) as (k & w0 & _ & Hw & Hlast & Hfit).
  assert (k = k0).
  { rewrite Hw, polls_app in Hp.
    destruct (poll_trace_observed tsk_id k 3) as (_ & Hk & _). lia. }
  subst k0. exists k, w0. repeat split; assumption.
Qed.

(** The poller reads the provider through its status answers only. *)
Lemma poll_loop_reads_answers_only P P' tsk_id time_out :
  (forall h, describe_export_tasks P' h tsk_id = describe_export_tasks P h tsk_id) ->
  forall fuel t w,
    poll_loop fuel P' tsk_id time_out t w = poll_loop fuel P tsk_id time_out t w.
Proof.
  intros Hsame. induction fuel as [|fuel IH]; intros t w; [reflexivity|].
  cbn [poll_loop]. unfold poll_once. rewrite Hsame.
  destruct (describe_export_tasks P w tsk_id) as [[|info rest]|e]; try reflexivity.
  destruct (t >? time_out); [reflexivity|].
  destruct (negb (status_code info =? "COMPLETED")%string); [apply IH | reflexivity].
Qed.

(** Against a task that is never COMPLETED the poller goes on for as long
    as the timeout allows. *)
Lemma never_completed_times_out P tsk_id time_out w :
  (forall h, exists info rest,
      describe_export_tasks P h tsk_id = DescribeExportTasksOk (info :: rest) /\
      (status_code info =? "COMPLETED")%string = false) ->
  exists r w',
    (forall fuel,
        (polls_before_timeout (timeout_or_default time_out) <= fuel)%nat ->
        get_tsk_status fuel P tsk_id time_out w = Some (r, w')) /\
    is_timed_out r = true /\
    polls w' = (polls w + polls_before_timeout (timeout_or_default time_out))%nat /\
    sleeps w' =
      sleeps w ++ backoff 3 (polls_before_timeout (timeout_or_default time_out) - 1).
Proof.
  intros Hstuck.
  destruct (get_tsk_status_halts P tsk_id time_out w)
    as (r & w' & k & Hall & Hp & Hs & _ & _ & Hto).
  destruct (get_tsk_status_effects _ _ _ _ _ _ _ (Hall _ (Nat.le_refl _)))
    as (k1 & w0 & _ & _ & _ & _ & Hfit).
  assert (Hr : is_timed_out r = true).
  { destruct (Hstuck w0) as (info & rest & Hd & Hc).
    rewrite Hd in Hfit. cbn in Hfit. destruct Hfit as [[_ Hcode] | ->].
    - apply String.eqb_neq in Hc. contradiction.
    - reflexivity. }
  specialize (Hto Hr).
  exists r, w'. split; [exact Hall|]. split; [exact Hr|].
  split; [lia|]. rewrite Hs. f_equal. f_equal. lia.
Qed.

(** ** The poller: claims *)

(** C9.  Whatever the provider answers, the poller returns: for a given
    timeout it makes at least one and at most [polls_before_timeout] polls, a
    number that depends on the timeout alone, and the same reply comes out for
    every fuel that covers this number.  The counter starts at 3 and every
    turn that goes round again doubles it, so [polls_before_timeout] is the
    first turn whose counter [3 * 2 ^ (turn - 1)] exceeds the timeout, and a
    timeout is reported after exactly that many polls. *)
Theorem poller_halts_within_bound P tsk_id time_out w :
  let T := timeout_or_default time_out in
  exists r w',
    (forall fuel, (polls_before_timeout T <= fuel)%nat ->
                  get_tsk_status fuel P tsk_id time_out w = Some (r, w')) /\
    (polls w < polls w' <= polls w + polls_before_timeout T)%nat /\
    (is_timed_out r = true -> polls w' = (polls w + polls_before_timeout T)%nat) /\
    T < 3 * 2 ^ (Z.of_nat (polls_before_timeout T) - 1) /\
    (forall j, (S j < polls_before_timeout T)%nat -> 3 * 2 ^ Z.of_nat j <= T) /\
    (forall t u t' u', poll_once P tsk_id T t u = Again t' u' -> t' = t * 2).
Proof.
  intros T.
  destruct (get_tsk_status_halts P tsk_id time_out w)
    as (r & w' & k & Hrun & Hp & _ & _ & Hle & Hto).
  fold T in Hrun, Hle, Hto.
  exists r, w'. split; [exact Hrun|].
  split; [lia|]. split; [intros H; specialize (Hto H); lia|].
  destruct (polls_before_timeout_first T) as [Hfirst Hbefore].
  split; [exact Hfirst|]. split; [exact Hbefore|].
  intros t u t' u' H. now apply poll_once_again in H.
Qed.

(** C3.  The timeout is decided by the counter alone.  At a turn with
    counter [t] whose poll answers with a task, the poller leaves with the
    failure of a timeout, naming the task id and the status code just read,
    exactly when [t] exceeds the timeout, whatever the history and the time
    slept so far; otherwise it doubles the counter and sleeps, or leaves
    with a success when the task is COMPLETED.  So against a task that is
    never COMPLETED the timeout comes at the first turn whose counter
    [3 * 2 ^ (turn - 1)] exceeds the timeout.  The reply depends on the
    provider through its status answers only: its clock is never read.  In
    particular, with a timeout of 10 the turns see the counters 3, 6 and 12,
    the third finds 12 > 10, and the poller has polled three times and
    slept twice, for 6 and for 12. *)
Theorem timeout_compares_the_counter P tsk_id :
  (forall time_out t w info rest,
      describe_export_tasks P w tsk_id = DescribeExportTasksOk (info :: rest) ->
      let w1 := w ++ [DescribeExportTasks tsk_id] in
      (time_out < t ->
       poll_once P tsk_id time_out t w =
         Leave {| ts_status := false; tsk_info := Some info;
                  ts_error_message :=
                    fstring ["Task:"; tsk_id; " is still running. Status:";
                             status_code info]%string |} w1) /\
      (t <= time_out -> (status_code info =? "COMPLETED")%string = false ->
       poll_once P tsk_id time_out t w = Again (t * 2) (w1 ++ [Sleep (t * 2)])) /\
      (t <= time_out -> (status_code info =? "COMPLETED")%string = true ->
       poll_once P tsk_id time_out t w =
         Leave {| ts_status := true; tsk_info := Some info; ts_error_message := "" |} w1)) /\
  (forall time_out w,
      (forall h, exists info rest,
          describe_export_tasks P h tsk_id = DescribeExportTasksOk (info :: rest) /\
          (status_code info =? "COMPLETED")%string = false) ->
      let T := timeout_or_default time_out in
      let n := polls_before_timeout T in
      exists r w',
        (forall fuel, (n <= fuel)%nat ->
                      get_tsk_status fuel P tsk_id time_out w = Some (r, w')) /\
        is_timed_out r = true /\
        polls w' = (polls w + n)%nat /\
        sleeps w' = sleeps w ++ backoff 3 (n - 1) /\
        T < 3 * 2 ^ (Z.of_nat n - 1) /\
        (forall j, (S j < n)%nat -> 3 * 2 ^ Z.of_nat j <= T)) /\
  (forall P',
      (forall h, describe_export_tasks P' h tsk_id = describe_export_tasks P h tsk_id) ->
      forall fuel time_out w,
        get_tsk_status fuel P' tsk_id time_out w = get_tsk_status fuel P tsk_id time_out w) /\
  (forall w fuel i1 r1 i2 r2 i3 r3,
      let w1 := (w ++ [DescribeExportTasks tsk_id]) ++ [Sleep 6] in
      let w2 := (w1 ++ [DescribeExportTasks tsk_id]) ++ [Sleep 12] in
      let w3 := w2 ++ [DescribeExportTasks tsk_id] in
      let timed_out :=
        {| ts_status := false; tsk_info := Some i3;
           ts_error_message :=
             fstring ["Task:"; tsk_id; " is still running. Status:";
                      status_code i3]%string |} in
      describe_export_tasks P w tsk_id = DescribeExportTasksOk (i1 :: r1) ->
      (status_code i1 =? "COMPLETED")%string = false ->
      describe_export_tasks P w1 tsk_id = DescribeExportTasksOk (i2 :: r2) ->
      (status_code i2 =? "COMPLETED")%string = false ->
      describe_export_tasks P w2 tsk_id = DescribeExportTasksOk (i3 :: r3) ->
      poll_once P tsk_id 10 3 w = Again 6 w1 /\
      poll_once P tsk_id 10 6 w1 = Again 12 w2 /\
      poll_once P tsk_id 10 12 w2 = Leave timed_out w3 /\
      get_tsk_status (3 + fuel) P tsk_id (Some 10) w = Some (timed_out, w3) /\
      sleeps w3 = sleeps w ++ [6; 12] /\
      polls w3 = (polls w + 3)%nat).
Proof.
  split; [|split; [|split]].
  - intros time_out t w info rest Hd w1. unfold poll_once. rewrite Hd.
    split; [|split].
    + intros Ht. replace (t >? time_out) with true by lia. reflexivity.
    + intros Ht Hc. replace (t >? time_out) with false by lia. now rewrite Hc.
    + intros Ht Hc. replace (t >? time_out) with false by lia. now rewrite Hc.
  - intros time_out w Hstuck T n.
    destruct (never_completed_times_out P tsk_id time_out w Hstuck)
      as (r & w' & Hall & Hr & Hp & Hs).
    destruct (polls_before_timeout_first T) as [Hfirst Hbefore].
    exists r, w'. repeat split; assumption.
  - intros P' Hsame fuel time_out w. unfold get_tsk_status.
    now apply poll_loop_reads_answers_only.
  - intros w fuel i1 r1 i2 r2 i3 r3 w1 w2 w3 timed_out H1 C1 H2 C2 H3.
    assert (T1 : poll_once P tsk_id 10 3 w = Again 6 w1).
    { unfold poll_once. rewrite H1, C1. reflexivity. }
    assert (T2 : poll_once P tsk_id 10 6 w1 = Again 12 w2).
    { unfold poll_once. rewrite H2, C2. reflexivity. }
    assert (T3 : poll_once P tsk_id 10 12 w2 = Leave timed_out w3).
    { unfold poll_once. rewrite H3. reflexivity. }
    repeat split; auto.
    + unfold get_tsk_status. cbn [timeout_or_default Z.eqb Nat.add poll_loop].
      rewrite T1, T2, T3. reflexivity.
    + unfold w3, w2, w1. rewrite !sleeps_app. simpl. rewrite !app_nil_r, <- app_assoc.
      reflexivity.
    + unfold w3, w2, w1, polls. rewrite !filter_app, !length_app. simpl. lia.
Qed.

Lemma timeout_compares_the_counter_witness :
  (exists r w3,
      get_tsk_status 3 (Examples.scripted ["RUNNING"; "PENDING"; "RUNNING"]%string [])
        "task-1" (Some 10) [] = Some (r, w3) /\
      ts_error_message r = "Task:task-1 is still running. Status:RUNNING"%string /\
      sleeps w3 = [6; 12] /\ polls w3 = 3%nat) /\
  (exists r w',
      get_tsk_status 4 (Examples.stuck "RUNNING") "task-1" (Some 17) [] = Some (r, w') /\
      is_timed_out r = true /\ polls w' = 4%nat /\ sleeps w' = [6; 12; 24]).
Proof.
  split.
  - pose proof (proj2 (proj2 (proj2 (timeout_compares_the_counter
                  (Examples.scripted ["RUNNING"; "PENDING"; "RUNNING"]%string [])
                  "task-1")))
                  [] 0%nat
                  (Examples.task "RUNNING") [] (Examples.task "PENDING") []
                  (Examples.task "RUNNING") []
                  eq_refl eq_refl eq_refl eq_refl eq_refl)
      as (_ & _ & _ & Hrun & Hs & Hp).
    eexists _, _. split; [exact Hrun|]. split; [reflexivity|]. split; assumption.
  - destruct (proj1 (proj2 (timeout_compares_the_counter (Examples.stuck "RUNNING")
                              "task-1")) (Some 17) [])
      as (r & w' & Hall & Hr & Hp & Hs & _).
    { intros h. exists (Examples.task "RUNNING"), []. split; reflexivity. }
    exists r, w'. split; [apply Hall; vm_compute; lia|].
    split; [exact Hr|]. split; [exact Hp | exact Hs].
Defined.

(** C4, as the code has it.  The counter is doubled before the poller
    sleeps, so the wait before the first re-poll is 6, twice the seed, and
    the waits double from there: the [i]-th wait (from 0) lasts
    [6 * 2 ^ i], and there is one wait between two consecutive polls. *)
Theorem waits_double_from_six P tsk_id time_out w :
  exists r w' k,
    (forall fuel,
        (polls_before_timeout (timeout_or_default time_out) <= fuel)%nat ->
        get_tsk_status fuel P tsk_id time_out w = Some (r, w')) /\
    polls w' = (polls w + S k)%nat /\
    sleeps w' = sleeps w ++ backoff 3 k /\
    List.length (backoff 3 k) = k /\
    (forall i, (i < k)%nat -> nth i (backoff 3 k) 0 = 6 * 2 ^ Z.of_nat i).
Proof.
  destruct (get_tsk_status_halts P tsk_id time_out w)
    as (r & w' & k & Hrun & Hp & Hs & _).
  exists r, w', k. repeat split; auto using length_backoff.
  intros i Hi. now rewrite nth_backoff.
Qed.

(** C4, as stated, fails: a task that is RUNNING at the first poll and
    COMPLETED at the second makes the poller wait once, for 6 and not for
    the seed 3. *)
Lemma first_wait_is_not_the_seed :
  exists r w',
    get_tsk_status 2 (Examples.scripted ["RUNNING"; "COMPLETED"]%string [])
      "task-1" (Some 300) [] = Some (r, w') /\
    ts_status r = true /\
    sleeps w' = [6] /\
    nth 0 (sleeps w') 0 <> 3.
Proof.
  eexists _, _. split; [reflexivity|]. split; [reflexivity|].
  split; [reflexivity|]. discriminate.
Qed.

(** C5, as the code has it.  When the timeout in force (300 for an absent
    or zero one) is at least 3 and the first poll reports COMPLETED, the
    poller returns success with that task information after one poll and no
    sleep. *)
Theorem completed_at_first_poll P tsk_id time_out w fuel info rest :
  3 <= timeout_or_default time_out ->
  describe_export_tasks P w tsk_id = DescribeExportTasksOk (info :: rest) ->
  (status_code info =? "COMPLETED")%string = true ->
  get_tsk_status (S fuel) P tsk_id time_out w =
    Some ({| ts_status := true; tsk_info := Some info; ts_error_message := "" |},
          w ++ [DescribeExportTasks tsk_id]) /\
  sleeps (w ++ [DescribeExportTasks tsk_id]) = sleeps w /\
  polls (w ++ [DescribeExportTasks tsk_id]) = (polls w + 1)%nat.
Proof.
  intros HT Hd Hc. split; [|split].
  - unfold get_tsk_status. cbn [poll_loop]. unfold poll_once. rewrite Hd, Hc.
    replace (3 >? timeout_or_default time_out) with false by lia. reflexivity.
  - rewrite sleeps_app. simpl. now rewrite app_nil_r.
  - now rewrite polls_app.
Qed.

Lemma completed_at_first_poll_witness :
  get_tsk_status 1 (Examples.scripted ["COMPLETED"]%string []) "task-1" None [] =
    Some ({| ts_status := true; tsk_info := Some (Examples.task "COMPLETED");
             ts_error_message := "" |},
          [DescribeExportTasks "task-1"]).
Proof.
  refine (proj1 (completed_at_first_poll
                   (Examples.scripted ["COMPLETED"]%string []) "task-1" None [] 0
                   (Examples.task "COMPLETED") [] _ eq_refl eq_refl)).
  vm_compute. discriminate.
Defined.

(** C5, as stated, fails for a timeout of 2: the first poll reports
    COMPLETED and the poller still returns the failure of a timeout. *)
Lemma timeout_two_ignores_completed :
  describe_export_tasks (Examples.scripted ["COMPLETED"]%string []) [] "task-1" =
    DescribeExportTasksOk [Examples.task "COMPLETED"] /\
  get_tsk_status 1 (Examples.scripted ["COMPLETED"]%string []) "task-1" (Some 2) [] =
    Some ({| ts_status := false; tsk_info := Some (Examples.task "COMPLETED");
             ts_error_message := "Task:task-1 is still running. Status:COMPLETED" |},
          [DescribeExportTasks "task-1"]).
Proof. split; reflexivity. Qed.

(** C10.  A timeout that is not zero and is below the seed 3 makes the
    poller poll once, sleep never, and return the failure of a timeout with
    the "still running" message that names the task id and the status code
    just read, whatever that status is, COMPLETED included. *)
Theorem timeout_below_seed P tsk_id T w fuel info rest :
  T <> 0 -> T < 3 ->
  describe_export_tasks P w tsk_id = DescribeExportTasksOk (info :: rest) ->
  get_tsk_status (S fuel) P tsk_id (Some T) w =
    Some ({| ts_status := false; tsk_info := Some info;
             ts_error_message :=
               fstring ["Task:"; tsk_id; " is still running. Status:";
                        status_code info]%string |},
          w ++ [DescribeExportTasks tsk_id]) /\
  polls (w ++ [DescribeExportTasks tsk_id]) = (polls w + 1)%nat /\
  sleeps (w ++ [DescribeExportTasks tsk_id]) = sleeps w.
Proof.
  intros H0 H3 Hd. split; [|split].
  - unfold get_tsk_status, timeout_or_default.
    replace (T =? 0) with false by lia.
    cbn [poll_loop]. unfold poll_once. rewrite Hd.
    replace (3 >? T) with true by lia. reflexivity.
  - now rewrite polls_app.
  - rewrite sleeps_app. simpl. now rewrite app_nil_r.
Qed.

Lemma timeout_below_seed_witness :
  get_tsk_status 1 (Examples.scripted ["COMPLETED"]%string []) "task-1" (Some 2) [] =
    Some ({| ts_status := false; tsk_info := Some (Examples.task "COMPLETED");
             ts_error_message := "Task:task-1 is still running. Status:COMPLETED" |},
          [DescribeExportTasks "task-1"]).
Proof.
  refine (proj1 (timeout_below_seed
                   (Examples.scripted ["COMPLETED"]%string []) "task-1" 2 [] 0
                   (Examples.task "COMPLETED") [] _ _ eq_refl)); lia.
Defined.

(** ** One export *)

Lemma checks_app (w evs : World) : checks (w ++ evs) = (checks w + checks evs)%nat.
Proof. unfold checks. now rewrite filter_app, length_app. Qed.

Lemma does_bucket_exists_ok P bucket_name w :
  head_bucket P w bucket_name = HeadBucketOk ->
  does_bucket_exists P bucket_name w =
    (Returns {| bkt_status := true; bkt_error_message := "" |},
     w ++ [HeadBucket bucket_name]).
Proof. unfold does_bucket_exists. now intros ->. Qed.

Lemma does_bucket_exists_fails P bucket_name w code msg :
  head_bucket P w bucket_name = HeadBucketClientError code msg ->
  does_bucket_exists P bucket_name w =
    (Returns {| bkt_status := false; bkt_error_message := msg |},
     w ++ [HeadBucket bucket_name]).
Proof. unfold does_bucket_exists. intros ->. now destruct (code =? "404")%string. Qed.

Lemma does_bucket_exists_raises P bucket_name w e :
  head_bucket P w bucket_name = HeadBucketRaises e ->
  does_bucket_exists P bucket_name w = (Raises e, w ++ [HeadBucket bucket_name]).
Proof. unfold does_bucket_exists. now intros ->. Qed.

(** What an export that completes has done, by the way it went. *)
Lemma export_effects gv fuel P name rd bucket w out w' :
  export_cw_logs_to_s3 fuel P gv name rd bucket w = Some (out, w') ->
  (polls w' <= polls w + polls_before_timeout (timeout_or_default (time_out gv)))%nat /\
  match export_period P rd (now P w) with
  | Raises e => out = Raises e /\ w' = w
  | Returns period =>
      checks w' = (checks w + 1)%nat /\
      match head_bucket P w bucket with
      | HeadBucketOk =>
          (exists resp, out = Returns resp) /\
          submissions w' = submissions w ++ [build_request P name bucket w period]
      | HeadBucketClientError _ msg =>
          out = Returns {| status := false; task_info := None; error_message := msg |} /\
          w' = w ++ [HeadBucket bucket]
      | HeadBucketRaises e => out = Raises e /\ w' = w ++ [HeadBucket bucket]
      end
  end.
Proof.
  unfold export_cw_logs_to_s3.
  pose proof (turns_until_pos (Z.to_nat (timeout_or_default (time_out gv)))
                (timeout_or_default (time_out gv)) 3) as Hpos.
  fold (polls_before_timeout (timeout_or_default (time_out gv))) in Hpos.
  destruct (export_period P rd (now P w)) as [period|e].
  2:{ intros H; inversion H; subst. split; [lia | split; reflexivity]. }
  destruct (head_bucket P w bucket) as [|code msg|e] eqn:Hb.
  - rewrite (does_bucket_exists_ok _ _ _ Hb). cbn [bkt_status negb].
    fold (build_request P name bucket w period).
    set (req := build_request P name bucket w period).
    set (w2 := (w ++ [HeadBucket bucket]) ++ [CreateExportTask req]).
    assert (H2 : checks w2 = (checks w + 1)%nat /\ polls w2 = polls w /\
                 submissions w2 = submissions w ++ [req]).
    { unfold w2. rewrite !checks_app, !polls_app, !submissions_app. cbn.
      rewrite app_nil_r. repeat split; lia. }
    destruct H2 as (Hc2 & Hp2 & Hs2).
    destruct (create_export_task P (w ++ [HeadBucket bucket]) req) as [tsk_id|e].
    + destruct (get_tsk_status fuel P tsk_id (time_out gv) w2) as [[r w3]|] eqn:Hrun;
        [|discriminate].
      intros H; inversion H; subst out w'. clear H.
      destruct (get_tsk_status_effects _ _ _ _ _ _ _ Hrun) as (k & w0 & -> & Hle & _).
      destruct (poll_trace_observed tsk_id k 3) as (_ & Hp & Hc & Hsub).
      rewrite checks_app, polls_app, submissions_app, Hp, Hc, Hsub, app_nil_r.
      split; [lia|]. split; [lia|]. split; [eauto | exact Hs2].
    + intros H; inversion H; subst out w'.
      split; [lia|]. split; [lia|]. split; [eauto | exact Hs2].
  - rewrite (does_bucket_exists_fails _ _ _ _ _ Hb). cbn [bkt_status negb].
    intros H; inversion H; subst out w'.
    rewrite checks_app, polls_app. cbn. repeat split; lia.
  - rewrite (does_bucket_exists_raises _ _ _ _ Hb).
    intros H; inversion H; subst out w'.
    rewrite checks_app, polls_app. cbn. repeat split; lia.
Qed.

(** With fuel for the poller an export completes. *)
Lemma export_completes gv fuel P name rd bucket w :
  (polls_before_timeout (timeout_or_default (time_out gv)) <= fuel)%nat ->
  exists out w', export_cw_logs_to_s3 fuel P gv name rd bucket w = Some (out, w').
Proof.
  intros Hfuel. unfold export_cw_logs_to_s3.
  destruct (export_period P rd (now P w)) as [period|e]; [|eauto].
  destruct (does_bucket_exists P bucket w) as [[resp|e] w1]; [|eauto].
  destruct (negb (bkt_status resp)); [eauto|].
  match goal with |- context [create_export_task P w1 ?r] =>
    destruct (create_export_task P w1 r) as [tsk_id|e]; [|eauto];
    destruct (get_tsk_status_halts P tsk_id (time_out gv) (w1 ++ [CreateExportTask r]))
      as (r0 & w3 & k & Hrun & _)
  end.
  rewrite (Hrun fuel Hfuel). destruct (bkt_status resp); eauto.
Qed.

(** With the dates in range and the bucket check answered, an export
    returns. *)
Lemma export_returns gv fuel P name rd bucket w period :
  (polls_before_timeout (timeout_or_default (time_out gv)) <= fuel)%nat ->
  export_period P rd (now P w) = Returns period ->
  answered (head_bucket P w bucket) ->
  exists resp w',
    export_cw_logs_to_s3 fuel P gv name rd bucket w = Some (Returns resp, w') /\
    match head_bucket P w bucket with
    | HeadBucketOk =>
        submissions w' = submissions w ++ [build_request P name bucket w period]
    | _ => w' = w ++ [HeadBucket bucket]
    end.
Proof.
  intros Hfuel Hperiod Hans.
  destruct (export_completes gv fuel P name rd bucket w Hfuel) as (out & w' & Hexp).
  destruct (export_effects _ _ _ _ _ _ _ _ _ Hexp) as (_ & Heff).
  rewrite Hperiod in Heff. destruct Heff as (_ & Heff).
  destruct (head_bucket P w bucket) as [|code msg|e]; [| |contradiction].
  - destruct Heff as ((resp & ->) & Hsub). eauto.
  - destruct Heff as (-> & ->). eauto.
Qed.

(** With the bucket check passed, an export submits the request
    [build_request]. *)
Lemma export_submits gv fuel P name rd bucket w period :
  (polls_before_timeout (timeout_or_default (time_out gv)) <= fuel)%nat ->
  export_period P rd (now P w) = Returns period ->
  head_bucket P w bucket = HeadBucketOk ->
  exists resp w',
    export_cw_logs_to_s3 fuel P gv name rd bucket w = Some (Returns resp, w') /\
    submissions w' = submissions w ++ [build_request P name bucket w period].
Proof.
  intros Hfuel Hperiod Hb.
  destruct (export_returns gv fuel P name rd bucket w period Hfuel Hperiod)
    as (resp & w' & Hexp & Hsub); [now rewrite Hb|].
  rewrite Hb in Hsub. eauto.
Qed.

(** Once the bucket check has passed and the request has been accepted,
    the response is a success whatever the poller returned. *)
Lemma export_ignores_poller_status gv fuel P name rd bucket w period tsk_id r w3 :
  let w1 := w ++ [HeadBucket bucket] in
  let req := build_request P name bucket w period in
  export_period P rd (now P w) = Returns period ->
  head_bucket P w bucket = HeadBucketOk ->
  create_export_task P w1 req = CreateExportTaskOk tsk_id ->
  get_tsk_status fuel P tsk_id (time_out gv) (w1 ++ [CreateExportTask req]) = Some (r, w3) ->
  export_cw_logs_to_s3 fuel P gv name rd bucket w =
    Some (Returns {| status := true; task_info := tsk_info r; error_message := "" |}, w3).
Proof.
  intros w1 req Hperiod Hb Hc Hr. unfold export_cw_logs_to_s3.
  rewrite Hperiod, (does_bucket_exists_ok _ _ _ Hb). cbn [bkt_status negb].
  fold (build_request P name bucket w period). fold req. fold w1.
  now rewrite Hc, Hr.
Qed.

(** ** The export period: claim *)





(** ** Listing and filtering *)

Lemma next_pages_submits_nothing P : forall fuel token acc w r w',
    next_pages fuel P token acc w = Some (r, w') ->
    submissions w' = submissions w.
Proof.
  induction fuel as [|fuel IH]; intros token acc w r w' H; [discriminate|].
  simpl in H.
  assert (Hone : submissions (w ++ [DescribeLogGroups token]) = submissions w).
  { rewrite submissions_app. simpl. now rewrite app_nil_r. }
  destruct (describe_log_groups P w token) as [page|msg].
  - destruct (nextToken page) as [[|c s]|].
    + inversion H; subst. exact Hone.
    + apply IH in H. congruence.
    + inversion H; subst. exact Hone.
  - inversion H; subst. exact Hone.
Qed.

Lemma listing_submits_nothing fuel P gv w r w' :
  get_cloudwatch_log_groups fuel P gv w = Some (r, w') ->
  submissions w' = submissions w.
Proof.
  unfold get_cloudwatch_log_groups. intros H.
  assert (Hone : submissions (w ++ [DescribeLogGroups None]) = submissions w).
  { rewrite submissions_app. simpl. now rewrite app_nil_r. }
  destruct (describe_log_groups P w None) as [page|msg].
  - destruct (nextToken page) as [[|c s]|].
    + inversion H; subst. exact Hone.
    + apply next_pages_submits_nothing in H. congruence.
    + inversion H; subst. exact Hone.
  - inversion H; subst. exact Hone.
Qed.

(** The filter keeps, in the order of the listing, the log groups whose name
    is configured; its status says whether it kept any. *)
Lemma filter_logs_to_export_spec gv lgs :
  let wanted lg := existsb (String.eqb (logGroupName lg)) (cw_logs_to_export gv) in
  filter_logs_to_export gv lgs =
    {| lgs_status := truthy (filter wanted (log_groups lgs));
       log_groups := filter wanted (log_groups lgs);
       lgs_error_message := "" |}.
Proof.
  intros wanted. unfold filter_logs_to_export.
  fold wanted.
  assert (G : forall l acc st,
             st = truthy acc ->
             fold_left
               (fun resp_data lg =>
                  if wanted lg
                  then {| lgs_status := true;
                          log_groups := log_groups resp_data ++ [lg];
                          lgs_error_message := lgs_error_message resp_data |}
                  else resp_data)
               l {| lgs_status := st; log_groups := acc; lgs_error_message := "" |} =
             {| lgs_status := truthy (acc ++ filter wanted l);
                log_groups := acc ++ filter wanted l;
                lgs_error_message := "" |}).
  { induction l as [|lg l IH]; intros acc st Hst.
    - simpl. rewrite app_nil_r. now subst.
    - simpl. destruct (wanted lg).
      + cbn [log_groups lgs_error_message]. rewrite IH.
        * now rewrite <- app_assoc.
        * now destruct acc.
      + now apply IH. }
  now rewrite G.
Qed.

Lemma filter_status_is_truthy gv lgs :
  lgs_status (filter_logs_to_export gv lgs) =
    truthy (log_groups (filter_logs_to_export gv lgs)).
Proof. now rewrite filter_logs_to_export_spec. Qed.

(** ** The loop over the sources *)

Lemma exported_length fuel P gv w sources resps w' :
  exported fuel P gv w sources resps w' -> List.length resps = List.length sources.
Proof. induction 1; simpl; congruence. Qed.

(** With fuel for the poller the loop completes. *)
Lemma export_each_completes gv fuel P :
  (polls_before_timeout (timeout_or_default (time_out gv)) <= fuel)%nat ->
  forall sources acc w,
  exists out w', export_each fuel P gv sources acc w = Some (out, w').
Proof.
  intros Hfuel. induction sources as [|lg rest IH]; intros acc w; [simpl; eauto|].
  destruct (export_completes gv fuel P (logGroupName lg) (retention_days gv)
              (log_dest_bkt gv) w Hfuel) as ([resp|e] & w1 & Hexp);
    simpl; rewrite Hexp; eauto.
Qed.

(** With the dates in range and every bucket check answered, the loop
    returns the responses of the exports of the sources, made in turn. *)
Lemma export_each_returns gv fuel P :
  (polls_before_timeout (timeout_or_default (time_out gv)) <= fuel)%nat ->
  dates_in_range P (retention_days gv) ->
  (forall h, answered (head_bucket P h (log_dest_bkt gv))) ->
  forall sources acc w,
  exists resps w',
    export_each fuel P gv sources acc w = Some (Returns (acc ++ resps), w') /\
    exported fuel P gv w sources resps w'.
Proof.
  intros Hfuel Hdates Hans. induction sources as [|lg rest IH]; intros acc w.
  - exists [], w. simpl. rewrite app_nil_r. split; [reflexivity | constructor].
  - destruct (Hdates w) as (period & Hperiod).
    destruct (export_returns gv fuel P (logGroupName lg) (retention_days gv)
                (log_dest_bkt gv) w period Hfuel Hperiod (Hans w))
      as (resp & w1 & Hexp & _).
    destruct (IH (acc ++ [resp]) w1) as (resps & w' & Hrun & Hrel).
    exists (resp :: resps), w'. simpl. rewrite Hexp, Hrun, <- app_assoc.
    split; [reflexivity | econstructor; eassumption].
Qed.

(** When the loop returns, it returns the responses of the exports of the
    sources, made in turn. *)
Lemma export_each_exported gv fuel P : forall sources acc w tasks w',
    export_each fuel P gv sources acc w = Some (Returns tasks, w') ->
    exists resps, tasks = acc ++ resps /\ exported fuel P gv w sources resps w'.
Proof.
  induction sources as [|lg rest IH]; intros acc w tasks w' H.
  - inversion H; subst. exists []. rewrite app_nil_r. split; [reflexivity | constructor].
  - cbn [export_each] in H.
    destruct (export_cw_logs_to_s3 fuel P gv (logGroupName lg) (retention_days gv)
                (log_dest_bkt gv) w) as [[[resp|e] w1]|] eqn:Hexp; try discriminate.
    destruct (IH _ _ _ _ H) as (resps & -> & Hrel).
    exists (resp :: resps). rewrite <- app_assoc.
    split; [reflexivity | econstructor; eassumption].
Qed.

(** ** The orchestrator: claims *)

(** C6.  When the listing succeeds and none of the listed log groups is
    configured for export, the run fails with the message "There are no log
    group matching the filter ...", records no export task and submits no
    export request. *)
Theorem empty_filter_fails_the_run gv fuel P w lgs w1 :
  gv_status gv = true ->
  get_cloudwatch_log_groups fuel P gv w = Some (lgs, w1) ->
  lgs_status lgs = true ->
  log_groups (filter_logs_to_export gv lgs) = [] ->
  exists res,
    lambda_handler_with gv fuel P w = Some (Returns res, w1) /\
    run_status res = false /\
    run_error_message res = fstring [no_log_group_message; " ERROR:"]%string /\
    export_tasks res = None /\
    submissions w1 = submissions w.
Proof.
  intros Hgv Hlist Hst Hempty. unfold lambda_handler_with.
  rewrite Hgv, Hlist, Hst. cbn [negb].
  rewrite filter_status_is_truthy, Hempty. cbn [truthy orb negb].
  eexists. split; [reflexivity|]. cbn [run_status run_error_message export_tasks].
  repeat split.
  - rewrite filter_logs_to_export_spec. reflexivity.
  - eapply listing_submits_nothing; eassumption.
Qed.

Lemma empty_filter_fails_the_run_witness :
  exists res w1,
    lambda_handler 8 (Examples.unrelated_catalog (Examples.scripted [] [])) [] =
      Some (Returns res, w1) /\
    run_status res = false /\ export_tasks res = None /\ submissions w1 = [].
Proof.
  destruct (empty_filter_fails_the_run set_global_vars 8
              (Examples.unrelated_catalog (Examples.scripted [] [])) [] _ _
              eq_refl eq_refl eq_refl eq_refl)
    as (res & Hrun & Hst & _ & Htasks & Hsub).
  exists res. eexists. split; [exact Hrun|]. repeat split; assumption.
Defined.

(** C7, as the code has it.  When the listing succeeds, the dates of the
    export period are in range and every bucket check is answered (it passes
    or raises a [ClientError]), the run returns; it succeeds exactly when the
    filtered list of sources is not empty, whatever the outcome of each
    export, and it then holds one response per source, in the order of the
    sources: the [i]-th response is what [export_cw_logs_to_s3] returned for
    the [i]-th source in the history left by the sources before it. *)
Theorem one_outcome_per_source_in_order gv fuel P w lgs w1 :
  gv_status gv = true ->
  get_cloudwatch_log_groups fuel P gv w = Some (lgs, w1) ->
  lgs_status lgs = true ->
  (polls_before_timeout (timeout_or_default (time_out gv)) <= fuel)%nat ->
  dates_in_range P (retention_days gv) ->
  (forall h, answered (head_bucket P h (log_dest_bkt gv))) ->
  let sources := log_groups (filter_logs_to_export gv lgs) in
  exists res w2,
    lambda_handler_with gv fuel P w = Some (Returns res, w2) /\
    (run_status res = true <-> sources <> []) /\
    (sources <> [] ->
     exists tasks,
       export_tasks res = Some tasks /\
       List.length tasks = List.length sources /\
       exported fuel P gv w1 sources tasks w2).
Proof.
  intros Hgv Hlist Hst Hfuel Hdates Hans sources. unfold lambda_handler_with.
  rewrite Hgv, Hlist, Hst. cbn [negb].
  rewrite filter_status_is_truthy. fold sources.
  destruct sources as [|lg rest] eqn:Hsrc.
  - cbn [truthy orb negb]. eexists _, _. split; [reflexivity|].
    cbn [run_status]. split; [split; [discriminate | congruence] | congruence].
  - cbn [truthy orb negb].
    destruct (export_each_returns gv fuel P Hfuel Hdates Hans (lg :: rest) [] w1)
      as (resps & w2 & Hrun & Hrel).
    rewrite Hrun. eexists _, _. split; [reflexivity|].
    cbn [run_status export_tasks]. split; [split; [discriminate | reflexivity]|].
    intros _. exists resps. split; [reflexivity|].
    split; [eapply exported_length; eassumption | exact Hrel].
Qed.

Lemma one_outcome_per_source_in_order_witness :
  exists res w2,
    lambda_handler 8 (Examples.scripted ["COMPLETED"]%string [0%nat]) [] =
      Some (Returns res, w2) /\
    run_status res = true /\
    exists tasks, export_tasks res = Some tasks /\ List.length tasks = 2%nat.
Proof.
  destruct (one_outcome_per_source_in_order set_global_vars 8
              (Examples.scripted ["COMPLETED"]%string [0%nat]) [] _ _
              eq_refl eq_refl eq_refl ltac:(vm_compute; lia)
              (fun h => ex_intro _ _ eq_refl))
    as (res & w2 & Hrun & Hst & Htasks).
  { intros h. cbn [head_bucket Examples.scripted].
    destruct (existsb _ _); exact I. }
  exists res, w2. split; [exact Hrun|].
  split; [apply Hst; discriminate|].
  destruct Htasks as (tasks & Ht & Hlen & _); [discriminate|].
  exists tasks. split; assumption.
Defined.

(** The example of C7: of the two configured sources the first fails its
    bucket check and the second is exported; the run succeeds with a failed
    response followed by a successful one. *)
Example first_fails_second_succeeds :
  exists w2,
    lambda_handler 8 (Examples.scripted ["COMPLETED"]%string [0%nat]) [] =
      Some (Returns
              {| run_status := true; run_error_message := ""; lgs := None;
                 export_tasks :=
                   Some [ {| status := false; task_info := None;
                             error_message := "Not Found" |};
                          {| status := true;
                             task_info := Some (Examples.task "COMPLETED");
                             error_message := "" |} ] |}, w2) /\
    map req_logGroupName (submissions w2) = ["/aws/lambda/Asislambda"]%string.
Proof. eexists. split; reflexivity. Qed.

(** C7, as stated, fails: with two sources left by the filter and a
    bucket service that cannot be reached, the first bucket check raises an
    exception that is not a [ClientError]; nothing catches it and the run
    ends without a result, so without an outcome for any source. *)
Lemma unanswered_check_ends_the_run :
  List.length
    (log_groups
       (filter_logs_to_export set_global_vars
          {| lgs_status := true;
             log_groups :=
               [ {| logGroupName := "/aws/lambda/indian-space-facts"; arn := "arn:a" |};
                 {| logGroupName := "/aws/lambda/other"; arn := "arn:o" |};
                 {| logGroupName := "/aws/lambda/Asislambda"; arn := "arn:b" |} ];
             lgs_error_message := "" |})) = 2%nat /\
  lambda_handler 8 (Examples.unreachable ["COMPLETED"; "COMPLETED"]%string 0) [] =
    Some (Raises "Could not connect to the endpoint URL",
          [DescribeLogGroups None; HeadBucket "cw-log-exports-01"]).
Proof. split; reflexivity. Qed.

(** C8, as the code has it.  When the bucket check of a source raises a
    [ClientError], its export returns a failure that carries the error
    message of the check, having done nothing but the check: no export
    request is submitted.  The loop appends this response and goes on with
    the remaining sources; when the dates are in range and the later checks
    are answered too, it returns one response for the failed source and one
    for each remaining source. *)
Theorem failed_check_skips_the_source gv fuel P lg rest acc w code msg period :
  export_period P (retention_days gv) (now P w) = Returns period ->
  head_bucket P w (log_dest_bkt gv) = HeadBucketClientError code msg ->
  (polls_before_timeout (timeout_or_default (time_out gv)) <= fuel)%nat ->
  let failed := {| status := false; task_info := None; error_message := msg |} in
  let w1 := w ++ [HeadBucket (log_dest_bkt gv)] in
  export_cw_logs_to_s3 fuel P gv (logGroupName lg) (retention_days gv)
    (log_dest_bkt gv) w = Some (Returns failed, w1) /\
  submissions w1 = submissions w /\
  export_each fuel P gv (lg :: rest) acc w =
    export_each fuel P gv rest (acc ++ [failed]) w1 /\
  (dates_in_range P (retention_days gv) ->
   (forall h, answered (head_bucket P h (log_dest_bkt gv))) ->
   exists resps w2,
     export_each fuel P gv (lg :: rest) acc w = Some (Returns (acc ++ failed :: resps), w2) /\
     exported fuel P gv w1 rest resps w2 /\
     List.length resps = List.length rest).
Proof.
  intros Hperiod Hb Hfuel failed w1.
  assert (Hexp : export_cw_logs_to_s3 fuel P gv (logGroupName lg) (retention_days gv)
                   (log_dest_bkt gv) w = Some (Returns failed, w1)).
  { unfold export_cw_logs_to_s3.
    rewrite Hperiod, (does_bucket_exists_fails _ _ _ _ _ Hb). reflexivity. }
  split; [exact Hexp|].
  split; [unfold w1; rewrite submissions_app; simpl; now rewrite app_nil_r|].
  split; [simpl; now rewrite Hexp|].
  intros Hdates Hans.
  destruct (export_each_returns gv fuel P Hfuel Hdates Hans rest (acc ++ [failed]) w1)
    as (resps & w2 & Hrun & Hrel).
  exists resps, w2. simpl. rewrite Hexp, Hrun, <- app_assoc.
  split; [reflexivity|]. split; [exact Hrel | eapply exported_length; eassumption].
Qed.

Lemma failed_check_skips_the_source_witness :
  exists resps w2,
    export_each 8 (Examples.scripted ["COMPLETED"]%string [0%nat]) set_global_vars
      [ {| logGroupName := "/aws/lambda/indian-space-facts"; arn := "arn:a" |};
        {| logGroupName := "/aws/lambda/Asislambda"; arn := "arn:b" |} ] [] [] =
      Some (Returns ({| status := false; task_info := None;
                        error_message := "Not Found" |} :: resps), w2) /\
    List.length resps = 1%nat.
Proof.
  destruct (failed_check_skips_the_source set_global_vars 8
              (Examples.scripted ["COMPLETED"]%string [0%nat])
              {| logGroupName := "/aws/lambda/indian-space-facts"; arn := "arn:a" |}
              [ {| logGroupName := "/aws/lambda/Asislambda"; arn := "arn:b" |} ]
              [] [] "404" "Not Found" _ eq_refl eq_refl ltac:(vm_compute; lia))
    as (_ & _ & _ & Hrest).
  destruct Hrest as (resps & w2 & Hrun & _ & Hlen).
  { intros h. eexists. reflexivity. }
  { intros h. cbn [head_bucket Examples.scripted]. destruct (existsb _ _); exact I. }
  exists resps, w2. split; [exact Hrun | exact Hlen].
Defined.

(** C8, as stated, fails: a bucket check that fails by raising an
    exception that is not a [ClientError] ends the loop and the run.  Here
    the first source is exported, the check of the second source cannot
    reach the bucket service: the loop raises, the response of the first
    source is lost and no failure is recorded for the second. *)
Lemma unanswered_check_is_not_recorded :
  export_each 8 (Examples.unreachable ["COMPLETED"]%string 1) set_global_vars
    [ {| logGroupName := "/aws/lambda/indian-space-facts"; arn := "arn:a" |};
      {| logGroupName := "/aws/lambda/Asislambda"; arn := "arn:b" |} ] [] [] =
    Some (Raises "Could not connect to the endpoint URL",
          [ HeadBucket "cw-log-exports-01";
            CreateExportTask
              (build_request (Examples.unreachable ["COMPLETED"]%string 1)
                 "/aws/lambda/indian-space-facts" "cw-log-exports-01" []
                 {| n1_day := 1692137600123456; n_day := 1692224000123456;
                    f_time := 1692137600123; t_time := 1692224000123 |});
            DescribeExportTasks "task-1";
            HeadBucket "cw-log-exports-01" ]) /\
  lambda_handler 8 (Examples.unreachable ["COMPLETED"]%string 1) [] =
    Some (Raises "Could not connect to the endpoint URL",
          DescribeLogGroups None ::
          [ HeadBucket "cw-log-exports-01";
            CreateExportTask
              (build_request (Examples.unreachable ["COMPLETED"]%string 1)
                 "/aws/lambda/indian-space-facts" "cw-log-exports-01"
                 [DescribeLogGroups None]
                 {| n1_day := 1692137600123456; n_day := 1692224000123456;
                    f_time := 1692137600123; t_time := 1692224000123 |});
            DescribeExportTasks "task-1";
            HeadBucket "cw-log-exports-01" ]).
Proof. split; reflexivity. Qed.

(** C1.  The code does not do what the claim says.  After the poller
    returns, [export_cw_logs_to_s3] tests the status of the bucket check, which
    is true at that point, and not the status the poller returned: a poll
    that raises, and a poll that times out, both end in a response with
    [status = true] and an empty error message. *)
Theorem poll_failure_is_reported_as_success :
  let raises := Examples.scripted [] [] in
  let runs := Examples.scripted (repeat "RUNNING"%string 8) [] in
  let w := [HeadBucket "cw-log-exports-01";
            CreateExportTask
              (build_request raises "/aws/lambda/Asislambda" "cw-log-exports-01" []
                 {| n1_day := 1692137600123456; n_day := 1692224000123456;
                    f_time := 1692137600123; t_time := 1692224000123 |})] in
  (exists w',
      get_tsk_status 8 raises "task-1" (Some 300) w =
        Some ({| ts_status := false; tsk_info := None;
                 ts_error_message :=
                   "Unable to verify status of task:task-1. ERROR:ThrottlingException" |},
              w') /\
      export_cw_logs_to_s3 8 raises set_global_vars "/aws/lambda/Asislambda" (Some 90)
        "cw-log-exports-01" [] =
        Some (Returns {| status := true; task_info := None; error_message := "" |}, w')) /\
  (exists w',
      get_tsk_status 8 runs "task-1" (Some 300) w =
        Some ({| ts_status := false; tsk_info := Some (Examples.task "RUNNING");
                 ts_error_message := "Task:task-1 is still running. Status:RUNNING" |},
              w') /\
      export_cw_logs_to_s3 8 runs set_global_vars "/aws/lambda/Asislambda" (Some 90)
        "cw-log-exports-01" [] =
        Some (Returns {| status := true; task_info := Some (Examples.task "RUNNING");
                         error_message := "" |}, w')).
Proof.
  cbv zeta. split; eexists; split; reflexivity.
Qed.

(** * Further properties of the code *)

(** ** The poller *)

(** X1.  The poller does nothing but poll the task it was given and sleep.
    Its run is a poll, then, as long as it goes on, a sleep for the doubled
    counter and another poll; it ends on a poll. *)
Theorem poller_polls_and_sleeps_in_turn P tsk_id time_out w :
  exists r w' k,
    (forall fuel,
        (polls_before_timeout (timeout_or_default time_out) <= fuel)%nat ->
        get_tsk_status fuel P tsk_id time_out w = Some (r, w')) /\
    w' = w ++ poll_trace tsk_id 3 k /\
    (S k <= polls_before_timeout (timeout_or_default time_out))%nat /\
    checks w' = checks w /\
    submissions w' = submissions w.
Proof.
  destruct (get_tsk_status_halts P tsk_id time_out w)
    as (r & w' & k0 & Hall & _ & _ & Hsub & _).
  destruct (get_tsk_status_effects _ _ _ _ _ _ _ (Hall _ (Nat.le_refl _)))
    as (k & w0 & Hw & Hle & _).
  exists r, w', k. repeat split; try assumption.
  rewrite Hw. unfold checks. rewrite filter_app, length_app.
  destruct (poll_trace_observed tsk_id k 3) as (_ & _ & Hc & _).
  unfold checks in Hc. rewrite Hc. lia.
Qed.

(** X2.  The reply of the poller is read off the answer to its last poll.
    An answer that raises, or that lists no task, gives a failure without
    task information whose message names the task id and the error.  An
    answer with a task gives either a success that carries this task, and
    then its status code is COMPLETED, or the failure of a timeout that
    carries this task and names the task id and its status code. *)
Theorem poller_reply_fits_last_answer P tsk_id time_out w :
  exists r w' w0,
    (forall fuel,
        (polls_before_timeout (timeout_or_default time_out) <= fuel)%nat ->
        get_tsk_status fuel P tsk_id time_out w = Some (r, w')) /\
    w' = w0 ++ [DescribeExportTasks tsk_id] /\
    reply_fits tsk_id (describe_export_tasks P w0 tsk_id) r.
Proof.
  destruct (get_tsk_status_halts P tsk_id time_out w) as (r & w' & k0 & Hall & _).
  destruct (get_tsk_status_effects _ _ _ _ _ _ _ (Hall _ (Nat.le_refl _)))
    as (k & w0 & _ & _ & _ & Hlast & Hfit).
  exists r, w', w0. repeat split; assumption.
Qed.

(** X3.  A status other than COMPLETED never ends the polling, FAILED and
    CANCELLED included.  Against a provider that answers every poll with a
    task that is not COMPLETED, the poller polls as often as the timeout
    allows, sleeps between the polls and returns the failure of a timeout. *)
Theorem only_completed_ends_polling P tsk_id time_out w :
  (forall h, exists info rest,
      describe_export_tasks P h tsk_id = DescribeExportTasksOk (info :: rest) /\
      (status_code info =? "COMPLETED")%string = false) ->
  let n := polls_before_timeout (timeout_or_default time_out) in
  exists r w',
    (forall fuel, (n <= fuel)%nat ->
                  get_tsk_status fuel P tsk_id time_out w = Some (r, w')) /\
    is_timed_out r = true /\
    polls w' = (polls w + n)%nat /\
    sleeps w' = sleeps w ++ backoff 3 (n - 1).
Proof.
  intros Hstuck n.
  destruct (never_completed_times_out P tsk_id time_out w Hstuck)
    as (r & w' & Hall & Hr & Hp & Hs).
  exists r, w'. split; [exact Hall|]. split; [exact Hr|]. split; [exact Hp | exact Hs].
Qed.

Lemma only_completed_ends_polling_witness :
  exists r w',
    get_tsk_status 8 (Examples.stuck "FAILED") "task-1" (Some 300) [] = Some (r, w') /\
    is_timed_out r = true /\
    polls w' = 8%nat /\
    sleeps w' = [6; 12; 24; 48; 96; 192; 384].
Proof.
  destruct (only_completed_ends_polling (Examples.stuck "FAILED") "task-1" (Some 300) [])
    as (r & w' & Hall & Hr & Hp & Hs).
  { intros h. exists (Examples.task "FAILED"), []. split; reflexivity. }
  exists r, w'. split; [apply Hall; vm_compute; lia|].
  split; [exact Hr|]. split; [exact Hp | exact Hs].
Defined.

Lemma total_backoff : forall k t,
    fold_right Z.add 0 (backoff t k) = 2 * t * (2 ^ Z.of_nat k - 1).
Proof.
  induction k as [|k IH]; intros t.
  - simpl. ring.
  - cbn [backoff fold_right]. rewrite IH, Nat2Z.inj_succ, Z.pow_succ_r by lia. ring.
Qed.

Lemma total_slept_app w evs : total_slept (w ++ evs) = total_slept w + total_slept evs.
Proof.
  unfold total_slept. rewrite sleeps_app.
  induction (sleeps w) as [|s l IH]; simpl; [reflexivity | lia].
Qed.

(** X4.  The timeout bounds the counter, not the time slept.  When the
    poller reports a timeout under a timeout [T >= 3], it has slept for
    more than [T] and for at most [4 * T - 6] in all. *)
Theorem timeout_sleeps_longer_than_timeout fuel P tsk_id time_out w r w' :
  get_tsk_status fuel P tsk_id time_out w = Some (r, w') ->
  is_timed_out r = true ->
  3 <= timeout_or_default time_out ->
  timeout_or_default time_out < total_slept w' - total_slept w
    <= 4 * timeout_or_default time_out - 6.
Proof.
  intros Hrun Hr HT.
  destruct (get_tsk_status_effects _ _ _ _ _ _ _ Hrun) as (k & w0 & Hw & _ & Hto & _).
  specialize (Hto Hr).
  destruct (polls_before_timeout_first (timeout_or_default time_out)) as [Hfirst Hbefore].
  rewrite <- Hto in Hfirst, Hbefore.
  replace (Z.of_nat (S k) - 1) with (Z.of_nat k) in Hfirst by lia.
  assert (Hslept : total_slept w' - total_slept w = 6 * (2 ^ Z.of_nat k - 1)).
  { rewrite Hw, total_slept_app. unfold total_slept.
    destruct (poll_trace_observed tsk_id k 3) as (-> & _).
    rewrite total_backoff. lia. }
  rewrite Hslept.
  destruct k as [|k].
  - simpl in Hfirst. lia.
  - specialize (Hbefore k ltac:(lia)).
    rewrite Nat2Z.inj_succ, Z.pow_succ_r in * by lia.
    assert (0 < 2 ^ Z.of_nat k) by (apply Z.pow_pos_nonneg; lia).
    lia.
Qed.

Lemma timeout_sleeps_longer_than_timeout_witness :
  exists r w',
    get_tsk_status 3 (Examples.stuck "RUNNING") "task-1" (Some 10) [] = Some (r, w') /\
    10 < total_slept w' - total_slept [] <= 34.
Proof.
  eexists _, _. split; [reflexivity|].
  exact (timeout_sleeps_longer_than_timeout 3 (Examples.stuck "RUNNING") "task-1"
           (Some 10) [] _ _ eq_refl eq_refl ltac:(vm_compute; discriminate)).
Defined.

(** ** The request *)

Lemma replace_leaves_no (a b : ascii) :
  a <> b -> forall s, ~ In a (list_ascii_of_string (replace a b s)).
Proof.
  intros Hab. induction s as [|c s IH]; simpl; [tauto|].
  intros [H|H]; [|tauto].
  destruct (Ascii.eqb_spec c a); congruence.
Qed.

Lemma in_drop_first c s :
  In c (list_ascii_of_string (drop_first s)) -> In c (list_ascii_of_string s).
Proof. destruct s; simpl; tauto. Qed.

(** X6.  The request that an export submits names the log group and the
    bucket it was given, and its destination prefix is the log group name
    with every "/" turned into "-" and its first character dropped, then
    "/", then the date of the day the period starts.  The part before that
    "/" holds no "/" of its own. *)
Theorem submitted_request_prefix gv fuel P name rd bucket w period :
  export_period P rd (now P w) = Returns period ->
  head_bucket P w bucket = HeadBucketOk ->
  (polls_before_timeout (timeout_or_default (time_out gv)) <= fuel)%nat ->
  exists resp w' req,
    export_cw_logs_to_s3 fuel P gv name rd bucket w = Some (Returns resp, w') /\
    submissions w' = submissions w ++ [req] /\
    req_logGroupName req = name /\
    destination req = bucket /\
    destinationPrefix req =
      fstring [drop_first (replace "/" "-" name); "/";
               gen_ymd (now P w - Datetime.days (retention_or_default rd + 1))]%string /\
    ~ In "/"%char (list_ascii_of_string (drop_first (replace "/" "-" name))).
Proof.
  intros Hperiod Hb Hfuel.
  destruct (export_submits gv fuel P name rd bucket w period Hfuel Hperiod Hb)
    as (resp & w' & Hexp & Hsub).
  exists resp, w', (build_request P name bucket w period).
  assert (Hstart : n1_day period =
                   now P w - Datetime.days (retention_or_default rd + 1)).
  { revert Hperiod. unfold export_period, Datetime.timedelta, Datetime.sub.
    destruct (Z.abs (retention_or_default rd + 1) <=? 999999999); [|discriminate].
    cbn [and_then].
    destruct ((Datetime.min <=? _) && (_ <=? Datetime.max))%bool; [|discriminate].
    cbn [and_then].
    destruct (Z.abs (retention_or_default rd) <=? 999999999); [|discriminate].
    cbn [and_then].
    destruct ((Datetime.min <=? _) && (_ <=? Datetime.max))%bool; [|discriminate].
    cbn [and_then]. intros H; inversion H; subst. reflexivity. }
  split; [exact Hexp|]. split; [exact Hsub|]. split; [reflexivity|].
  split; [reflexivity|]. split; [cbn [build_request destinationPrefix]; now rewrite Hstart|].
  intros H. apply in_drop_first in H. revert H. apply replace_leaves_no. discriminate.
Qed.

Lemma submitted_request_prefix_witness :
  exists resp w' req,
    export_cw_logs_to_s3 8 (Examples.scripted ["COMPLETED"]%string []) set_global_vars
      "/aws/lambda/Asislambda" (Some 90) "cw-log-exports-01" [] = Some (Returns resp, w') /\
    submissions w' = [req] /\
    destinationPrefix req = "aws-lambda-Asislambda/2023-8-15"%string.
Proof.
  destruct (submitted_request_prefix set_global_vars 8
              (Examples.scripted ["COMPLETED"]%string []) "/aws/lambda/Asislambda"
              (Some 90) "cw-log-exports-01" [] _ eq_refl eq_refl ltac:(vm_compute; lia))
    as (resp & w' & req & Hexp & Hsub & _ & _ & Hprefix & _).
  exists resp, w', req. split; [exact Hexp|]. split; [exact Hsub | exact Hprefix].
Defined.

(** ** One export: the ways it ends *)

(** X8.  When the export service rejects the request, the export ends at
    once with a failure that carries the error of the service; it has
    checked the bucket and submitted the request, and it never polls or
    sleeps.  This holds for every fuel. *)
Theorem rejected_request_is_not_polled gv fuel P name rd bucket w period e :
  export_period P rd (now P w) = Returns period ->
  head_bucket P w bucket = HeadBucketOk ->
  create_export_task P (w ++ [HeadBucket bucket]) (build_request P name bucket w period) =
    CreateExportTaskRaises e ->
  let w2 := w ++ [HeadBucket bucket; CreateExportTask (build_request P name bucket w period)] in
  export_cw_logs_to_s3 fuel P gv name rd bucket w =
    Some (Returns {| status := false; task_info := None; error_message := e |}, w2) /\
  polls w2 = polls w /\
  sleeps w2 = sleeps w.
Proof.
  intros Hperiod Hb Hc w2. split; [|split].
  - unfold export_cw_logs_to_s3.
    rewrite Hperiod, (does_bucket_exists_ok _ _ _ Hb). cbn [bkt_status negb].
    fold (build_request P name bucket w period). unfold w2.
    rewrite Hc, <- app_assoc. reflexivity.
  - unfold w2. rewrite polls_app. cbn. lia.
  - unfold w2. rewrite sleeps_app. cbn. now rewrite app_nil_r.
Qed.

Lemma rejected_request_is_not_polled_witness :
  exists w',
    export_cw_logs_to_s3 0 Examples.rejecting set_global_vars "/aws/lambda/Asislambda"
      (Some 90) "cw-log-exports-01" [] =
      Some (Returns {| status := false; task_info := None;
                       error_message := "LimitExceededException" |}, w') /\
    polls w' = 0%nat.
Proof.
  destruct (rejected_request_is_not_polled set_global_vars 0 Examples.rejecting
              "/aws/lambda/Asislambda" (Some 90) "cw-log-exports-01" [] _
              "LimitExceededException" eq_refl eq_refl eq_refl) as (Hexp & Hp & _).
  eexists. split; [exact Hexp | exact Hp].
Defined.

(** X9.  An export whose bucket check passes, whose request is accepted and
    whose task is COMPLETED at the first poll, under a timeout in force of
    at least 3, returns a success that carries the task information of that
    poll, after one bucket check, one submission and one poll of the task
    the service named. *)
Theorem export_completed_at_once gv fuel P name rd bucket w period tsk_id info rest :
  let req := build_request P name bucket w period in
  let w2 := w ++ [HeadBucket bucket; CreateExportTask req] in
  export_period P rd (now P w) = Returns period ->
  head_bucket P w bucket = HeadBucketOk ->
  create_export_task P (w ++ [HeadBucket bucket]) req = CreateExportTaskOk tsk_id ->
  describe_export_tasks P w2 tsk_id = DescribeExportTasksOk (info :: rest) ->
  (status_code info =? "COMPLETED")%string = true ->
  3 <= timeout_or_default (time_out gv) ->
  export_cw_logs_to_s3 (S fuel) P gv name rd bucket w =
    Some (Returns {| status := true; task_info := Some info; error_message := "" |},
          w2 ++ [DescribeExportTasks tsk_id]).
Proof.
  intros req w2 Hperiod Hb Hc Hd Hs HT.
  apply (export_ignores_poller_status gv (S fuel) P name rd bucket w period tsk_id
           {| ts_status := true; tsk_info := Some info; ts_error_message := "" |});
    try assumption.
  fold req. replace ((w ++ [HeadBucket bucket]) ++ [CreateExportTask req]) with w2
    by (unfold w2; now rewrite <- app_assoc).
  unfold get_tsk_status. cbn [poll_loop]. unfold poll_once. rewrite Hd, Hs.
  replace (3 >? timeout_or_default (time_out gv)) with false by lia. reflexivity.
Qed.

Lemma export_completed_at_once_witness :
  exists w',
    export_cw_logs_to_s3 1 (Examples.scripted ["COMPLETED"]%string []) set_global_vars
      "/aws/lambda/Asislambda" (Some 90) "cw-log-exports-01" [] =
      Some (Returns {| status := true; task_info := Some (Examples.task "COMPLETED");
                       error_message := "" |}, w').
Proof.
  eexists.
  exact (export_completed_at_once set_global_vars 0
           (Examples.scripted ["COMPLETED"]%string []) "/aws/lambda/Asislambda"
           (Some 90) "cw-log-exports-01" [] _ "task-1" (Examples.task "COMPLETED") []
           eq_refl eq_refl eq_refl eq_refl eq_refl ltac:(vm_compute; discriminate)).
Defined.

(** ** Listing and filtering *)

Lemma next_pages_effects P : forall fuel token acc w r w',
    next_pages fuel P token acc w = Some (r, w') ->
    is_next_page_call (DescribeLogGroups token) ->
    exists calls,
      w' = w ++ calls /\ Forall is_next_page_call calls /\
      (List.length calls <= fuel)%nat /\
      (lgs_status r = true -> lgs_error_message r = ""%string) /\
      exists later, log_groups r = acc ++ later.
Proof.
  induction fuel as [|fuel IH]; intros token acc w r w' H Htok; [discriminate|].
  cbn [next_pages] in H.
  assert (Hone : exists calls,
             w ++ [DescribeLogGroups token] = w ++ calls /\
             Forall is_next_page_call calls /\ (List.length calls <= S fuel)%nat).
  { exists [DescribeLogGroups token]. repeat split; [auto | simpl; lia]. }
  destruct (describe_log_groups P w token) as [page|msg].
  - destruct (nextToken page) as [[|c s]|] eqn:Hnext.
    + inversion H; subst. destruct Hone as (calls & ? & ? & ?).
      exists calls. repeat split; auto. cbn. eauto.
    + apply IH in H; [|exact I].
      destruct H as (calls & -> & Hall & Hlen & Hmsg & later & Hlater).
      exists (DescribeLogGroups token :: calls). rewrite <- app_assoc.
      repeat split; auto; [simpl; lia|].
      exists (logGroups page ++ later). now rewrite Hlater, <- app_assoc.
    + inversion H; subst. destruct Hone as (calls & ? & ? & ?).
      exists calls. repeat split; auto. cbn. eauto.
  - inversion H; subst. destruct Hone as (calls & ? & ? & ?).
    exists calls. repeat split; auto; [discriminate|]. exists []. cbn. now rewrite app_nil_r.
Qed.

Lemma next_page_calls_observed calls :
  Forall is_next_page_call calls ->
  checks calls = 0%nat /\ polls calls = 0%nat /\ sleeps calls = [] /\ submissions calls = [].
Proof.
  induction 1 as [|e calls He _ IH]; [repeat split|].
  destruct e; try contradiction. exact IH.
Qed.

(** The calls of a listing that returns, and what they leave unchanged. *)
Lemma listing_effects fuel P gv w r w' :
  get_cloudwatch_log_groups fuel P gv w = Some (r, w') ->
  exists calls,
    w' = w ++ DescribeLogGroups None :: calls /\
    Forall is_next_page_call calls /\
    (List.length calls <= fuel)%nat /\
    checks w' = checks w /\ polls w' = polls w /\
    sleeps w' = sleeps w /\ submissions w' = submissions w /\
    (lgs_status r = true -> lgs_error_message r = ""%string).
Proof.
  unfold get_cloudwatch_log_groups. intros H.
  assert (G : forall calls r0,
             Forall is_next_page_call calls ->
             (List.length calls <= fuel)%nat ->
             (lgs_status r0 = true -> lgs_error_message r0 = ""%string) ->
             exists calls0,
               (w ++ [DescribeLogGroups None]) ++ calls =
                 w ++ DescribeLogGroups None :: calls0 /\
               Forall is_next_page_call calls0 /\
               (List.length calls0 <= fuel)%nat /\
               checks ((w ++ [DescribeLogGroups None]) ++ calls) = checks w /\
               polls ((w ++ [DescribeLogGroups None]) ++ calls) = polls w /\
               sleeps ((w ++ [DescribeLogGroups None]) ++ calls) = sleeps w /\
               submissions ((w ++ [DescribeLogGroups None]) ++ calls) = submissions w /\
               (lgs_status r0 = true -> lgs_error_message r0 = ""%string)).
  { intros calls r0 Hall Hlen Hmsg. exists calls.
    destruct (next_page_calls_observed calls Hall) as (Hc & Hp & Hs & Hsub).
    unfold checks, polls in *.
    rewrite !sleeps_app, !submissions_app, !filter_app, !length_app, Hc, Hp, Hs, Hsub.
    cbn. rewrite !app_nil_r, <- app_assoc.
    repeat split; auto; lia. }
  destruct (describe_log_groups P w None) as [page|msg].
  - destruct (nextToken page) as [[|c s]|] eqn:Hnext.
    + inversion H; subst. rewrite <- (app_nil_r (w ++ [DescribeLogGroups None])).
      apply G; auto. simpl; lia.
    + apply next_pages_effects in H; [|exact I].
      destruct H as (calls & -> & Hall & Hlen & Hmsg & _). now apply G.
    + inversion H; subst. rewrite <- (app_nil_r (w ++ [DescribeLogGroups None])).
      apply G; auto. simpl; lia.
  - inversion H; subst. rewrite <- (app_nil_r (w ++ [DescribeLogGroups None])).
    apply G; auto; [simpl; lia | discriminate].
Qed.

(** X10.  The listing does nothing but list.  A listing that returns has
    called [describe_log_groups] once without a token and then only with
    tokens that are not empty, at most once per unit of fuel; it has checked
    no bucket, submitted no request, polled no task and never slept.  A
    successful listing carries an empty error message. *)
Theorem listing_only_lists fuel P gv w r w' :
  get_cloudwatch_log_groups fuel P gv w = Some (r, w') ->
  exists calls,
    w' = w ++ DescribeLogGroups None :: calls /\
    Forall is_next_page_call calls /\
    (List.length calls <= fuel)%nat /\
    checks w' = checks w /\ polls w' = polls w /\
    sleeps w' = sleeps w /\ submissions w' = submissions w /\
    (lgs_status r = true -> lgs_error_message r = ""%string).
Proof.
  intros H.
  destruct (listing_effects _ _ _ _ _ _ H) as (calls & Hw & Hall & Hlen & Hrest).
  exists calls. split; [exact Hw|]. split; [exact Hall|].
  split; [exact Hlen | exact Hrest].
Qed.

Lemma listing_only_lists_witness :
  exists r w',
    get_cloudwatch_log_groups 1 (Examples.two_pages [] false) set_global_vars [] =
      Some (r, w') /\
    w' = [DescribeLogGroups None; DescribeLogGroups (Some "page-2"%string)] /\
    List.length (log_groups r) = 3%nat.
Proof.
  eexists _, _. split; [reflexivity|].
  destruct (listing_only_lists 1 (Examples.two_pages [] false) set_global_vars [] _ _ eq_refl)
    as (calls & Hw & _).
  split; reflexivity.
Defined.

(** X11.  A listing that fails is fatal to the run.  The handler returns a
    failure with the error message of the listing and no export tasks, and
    the run has checked no bucket, submitted no request and polled no task;
    the log groups read before the failure are dropped. *)
Theorem listing_failure_fails_the_run gv fuel P w lgs w1 :
  gv_status gv = true ->
  get_cloudwatch_log_groups fuel P gv w = Some (lgs, w1) ->
  lgs_status lgs = false ->
  lambda_handler_with gv fuel P w =
    Some (Returns {| run_status := false; run_error_message := lgs_error_message lgs;
                     lgs := None; export_tasks := None |}, w1) /\
  checks w1 = checks w /\ submissions w1 = submissions w /\ polls w1 = polls w.
Proof.
  intros Hgv Hlist Hst.
  destruct (listing_effects _ _ _ _ _ _ Hlist)
    as (calls & _ & _ & _ & Hc & Hp & _ & Hsub & _).
  split; [|auto].
  unfold lambda_handler_with. now rewrite Hgv, Hlist, Hst.
Qed.

Lemma listing_failure_fails_the_run_witness :
  exists w1,
    lambda_handler 8 (Examples.two_pages [] true) [] =
      Some (Returns {| run_status := false; run_error_message := "ThrottlingException";
                       lgs := None; export_tasks := None |}, w1) /\
    checks w1 = 0%nat /\ submissions w1 = [] /\ polls w1 = 0%nat.
Proof.
  eexists.
  exact (listing_failure_fails_the_run set_global_vars 8 (Examples.two_pages [] true) []
           _ _ eq_refl eq_refl eq_refl).
Defined.

(** X12.  The filter keeps exactly the listed log groups whose name is, as
    it stands, one of the configured names; its status tells whether there
    is one, and its error message is always empty. *)
Theorem filter_keeps_configured_names gv lgs :
  (forall lg,
      In lg (log_groups (filter_logs_to_export gv lgs)) <->
      In lg (log_groups lgs) /\ In (logGroupName lg) (cw_logs_to_export gv)) /\
  (lgs_status (filter_logs_to_export gv lgs) = true <->
   exists lg, In lg (log_groups lgs) /\ In (logGroupName lg) (cw_logs_to_export gv)) /\
  lgs_error_message (filter_logs_to_export gv lgs) = ""%string.
Proof.
  rewrite filter_logs_to_export_spec. cbn [log_groups lgs_status lgs_error_message].
  assert (Hw : forall lg,
             existsb (String.eqb (logGroupName lg)) (cw_logs_to_export gv) = true <->
             In (logGroupName lg) (cw_logs_to_export gv)).
  { intros lg. rewrite existsb_exists. split.
    - intros (x & Hin & Heq). apply String.eqb_eq in Heq. now subst.
    - intros Hin. exists (logGroupName lg). split; [exact Hin | apply String.eqb_refl]. }
  assert (Hin : forall lg,
             In lg (filter (fun lg => existsb (String.eqb (logGroupName lg))
                                        (cw_logs_to_export gv)) (log_groups lgs)) <->
             In lg (log_groups lgs) /\ In (logGroupName lg) (cw_logs_to_export gv)).
  { intros lg. now rewrite filter_In, Hw. }
  split; [exact Hin|]. split; [|reflexivity].
  split.
  - destruct (filter _ (log_groups lgs)) as [|lg l] eqn:Hf; [discriminate|].
    intros _. exists lg. apply Hin. now left.
  - intros (lg & H). apply Hin in H.
    destruct (filter _ (log_groups lgs)); [contradiction | reflexivity].
Qed.

(** X13.  The filter keeps the order of the listing and works page by page:
    the filtered list of two listings put end to end is the filtered list
    of the first followed by that of the second.  Filtering a filtered
    listing changes nothing. *)
Theorem filter_keeps_listing_order gv st1 l1 e1 st2 l2 e2 st e :
  let listing st l e := {| lgs_status := st; log_groups := l; lgs_error_message := e |} in
  log_groups (filter_logs_to_export gv (listing st (l1 ++ l2) e)) =
    log_groups (filter_logs_to_export gv (listing st1 l1 e1)) ++
    log_groups (filter_logs_to_export gv (listing st2 l2 e2)) /\
  filter_logs_to_export gv (filter_logs_to_export gv (listing st l1 e)) =
    filter_logs_to_export gv (listing st l1 e).
Proof.
  cbv zeta. rewrite !filter_logs_to_export_spec. cbn [log_groups].
  split; [apply filter_app|].
  set (keep := fun lg => existsb (String.eqb (logGroupName lg)) (cw_logs_to_export gv)).
  assert (Hidem : filter keep (filter keep l1) = filter keep l1).
  { induction l1 as [|lg l IH]; [reflexivity|].
    simpl. destruct (keep lg) eqn:Hk; [simpl; rewrite Hk; now f_equal | exact IH]. }
  now rewrite Hidem.
Qed.

(** ** The run as a whole *)

(** What one export adds to the history, however it ends. *)
Lemma export_counts gv fuel P name rd bucket w out w' :
  export_cw_logs_to_s3 fuel P gv name rd bucket w = Some (out, w') ->
  (checks w' <= checks w + 1)%nat /\
  (polls w' <= polls w + polls_before_timeout (timeout_or_default (time_out gv)))%nat /\
  (exists news, submissions w' = submissions w ++ news /\ (List.length news <= 1)%nat) /\
  (forall resp, out = Returns resp -> checks w' = (checks w + 1)%nat).
Proof.
  intros Hexp. destruct (export_effects _ _ _ _ _ _ _ _ _ Hexp) as (Hp & Heff).
  assert (Hcheck : submissions (w ++ [HeadBucket bucket]) = submissions w ++ []).
  { rewrite submissions_app. reflexivity. }
  destruct (export_period P rd (now P w)) as [period|e].
  - destruct Heff as (Hc & Heff). split; [lia|]. split; [exact Hp|]. split; [|auto].
    destruct (head_bucket P w bucket) as [|code msg|e].
    + destruct Heff as (_ & Hsub). eexists. split; [exact Hsub | simpl; lia].
    + destruct Heff as (_ & ->). exists []. split; [exact Hcheck | simpl; lia].
    + destruct Heff as (_ & ->). exists []. split; [exact Hcheck | simpl; lia].
  - destruct Heff as (-> & ->). split; [lia|]. split; [lia|]. split.
    + exists []. rewrite app_nil_r. split; [reflexivity | simpl; lia].
    + discriminate.
Qed.

Lemma export_each_counts gv fuel P : forall sources acc w out w',
    export_each fuel P gv sources acc w = Some (out, w') ->
    (checks w' <= checks w + List.length sources)%nat /\
    (polls w' <= polls w + List.length sources *
                           polls_before_timeout (timeout_or_default (time_out gv)))%nat /\
    (exists news,
        submissions w' = submissions w ++ news /\
        (List.length news <= List.length sources)%nat) /\
    (forall tasks, out = Returns tasks ->
                   checks w' = (checks w + List.length sources)%nat).
Proof.
  induction sources as [|lg rest IH]; intros acc w out w' H.
  - inversion H; subst. split; [simpl; lia|]. split; [simpl; lia|]. split.
    + exists []. rewrite app_nil_r. split; [reflexivity | simpl; lia].
    + intros; simpl; lia.
  - cbn [export_each] in H.
    destruct (export_cw_logs_to_s3 fuel P gv (logGroupName lg) (retention_days gv)
                (log_dest_bkt gv) w) as [[out1 w1]|] eqn:Hexp; [|discriminate].
    destruct (export_counts _ _ _ _ _ _ _ _ _ Hexp)
      as (Hc1 & Hp1 & (news1 & Hs1 & Hl1) & Hret1).
    destruct out1 as [resp|e].
    + destruct (IH _ _ _ _ H) as (Hc & Hp & (news & Hs & Hl) & Hret).
      specialize (Hret1 resp eq_refl). cbn [List.length].
      split; [lia|]. split; [lia|]. split.
      * exists (news1 ++ news). rewrite Hs, Hs1, <- app_assoc, length_app.
        split; [reflexivity | lia].
      * intros tasks Ht. specialize (Hret tasks Ht). lia.
    + inversion H; subst. cbn [List.length].
      split; [lia|]. split; [lia|]. split.
      * exists news1. split; [exact Hs1 | lia].
      * discriminate.
Qed.

Lemma exported_with_bucket gv fuel P w sources resps w' :
  (forall h, head_bucket P h (log_dest_bkt gv) = HeadBucketOk) ->
  exported fuel P gv w sources resps w' ->
  exists news,
    submissions w' = submissions w ++ news /\
    map req_logGroupName news = map logGroupName sources /\
    Forall (fun req => destination req = log_dest_bkt gv) news.
Proof.
  intros Hok.
  induction 1 as [w|w lg rest resp w1 resps w2 Hexp _ (news & Hs & Hnames & Hdest)].
  - exists []. rewrite app_nil_r. repeat split. constructor.
  - apply export_effects in Hexp as (_ & Heff).
    destruct (export_period P (retention_days gv) (now P w)) as [period|e];
      [|destruct Heff; discriminate].
    destruct Heff as (_ & Heff). rewrite Hok in Heff. destruct Heff as (_ & Hsub).
    eexists (_ :: news). rewrite Hs, Hsub, <- app_assoc.
    split; [reflexivity|]. split; [cbn; now rewrite Hnames|].
    constructor; [reflexivity | exact Hdest].
Qed.

Lemma exported_without_bucket gv fuel P w sources resps w' :
  (forall h, exists code msg,
      head_bucket P h (log_dest_bkt gv) = HeadBucketClientError code msg) ->
  exported fuel P gv w sources resps w' ->
  Forall (fun resp => status resp = false /\ task_info resp = None) resps /\
  submissions w' = submissions w /\ polls w' = polls w /\ sleeps w' = sleeps w.
Proof.
  intros Hno.
  induction 1 as [w|w lg rest resp w1 resps w2 Hexp _ (Hall & Hs & Hp & Hsl)].
  - repeat split. constructor.
  - apply export_effects in Hexp as (_ & Heff).
    destruct (export_period P (retention_days gv) (now P w)) as [period|e];
      [|destruct Heff; discriminate].
    destruct Heff as (_ & Heff).
    destruct (Hno w) as (code & msg & Hb). rewrite Hb in Heff.
    destruct Heff as [Hresp ->]. inversion Hresp; subst resp.
    rewrite Hs, Hp, Hsl, submissions_app, polls_app, sleeps_app. cbn.
    rewrite !app_nil_r. repeat split; [|lia]. constructor; [split; reflexivity | exact Hall].
Qed.

(** A run whose listing succeeds, with the dates in range and every bucket
    check answered: it fails without any export when no source is left, and
    otherwise succeeds with the responses of the exports of the sources,
    made in turn. *)
Lemma handler_runs_exports gv fuel P w lgs w1 :
  gv_status gv = true ->
  get_cloudwatch_log_groups fuel P gv w = Some (lgs, w1) ->
  lgs_status lgs = true ->
  (polls_before_timeout (timeout_or_default (time_out gv)) <= fuel)%nat ->
  dates_in_range P (retention_days gv) ->
  (forall h, answered (head_bucket P h (log_dest_bkt gv))) ->
  exists res w2 tasks,
    lambda_handler_with gv fuel P w = Some (Returns res, w2) /\
    exported fuel P gv w1 (log_groups (filter_logs_to_export gv lgs)) tasks w2 /\
    (log_groups (filter_logs_to_export gv lgs) <> [] ->
     res = {| run_status := true; run_error_message := ""; lgs := None;
              export_tasks := Some tasks |}).
Proof.
  intros Hgv Hlist Hst Hfuel Hdates Hans. unfold lambda_handler_with.
  rewrite Hgv, Hlist, Hst. cbn [negb]. rewrite filter_status_is_truthy.
  destruct (log_groups (filter_logs_to_export gv lgs)) as [|lg rest] eqn:Hsrc.
  - cbn [truthy orb negb]. eexists _, w1, []. split; [reflexivity|].
    split; [constructor | congruence].
  - cbn [truthy orb negb].
    destruct (export_each_returns gv fuel P Hfuel Hdates Hans (lg :: rest) [] w1)
      as (resps & w2 & Hrun & Hrel).
    rewrite Hrun. eexists _, w2, resps. split; [reflexivity|].
    split; [exact Hrel | reflexivity].
Qed.

(** X14.  A run whose listing succeeds completes, by returning or by an
    exception that nothing catches.  Either way it has checked the bucket at
    most once per source, and exactly once per source when it returns; it
    has submitted at most one request per source and polled, over all
    sources, at most as often as the timeout allows per source. *)
Theorem run_makes_bounded_calls gv fuel P w lgs w1 :
  gv_status gv = true ->
  get_cloudwatch_log_groups fuel P gv w = Some (lgs, w1) ->
  lgs_status lgs = true ->
  (polls_before_timeout (timeout_or_default (time_out gv)) <= fuel)%nat ->
  let sources := log_groups (filter_logs_to_export gv lgs) in
  exists out w2 news,
    lambda_handler_with gv fuel P w = Some (out, w2) /\
    (checks w2 <= checks w + List.length sources)%nat /\
    (forall res, out = Returns res -> checks w2 = (checks w + List.length sources)%nat) /\
    submissions w2 = submissions w ++ news /\
    (List.length news <= List.length sources)%nat /\
    (polls w2 <= polls w + List.length sources *
                           polls_before_timeout (timeout_or_default (time_out gv)))%nat.
Proof.
  intros Hgv Hlist Hst Hfuel sources.
  destruct (listing_effects _ _ _ _ _ _ Hlist)
    as (_ & _ & _ & _ & Hc & Hp & _ & Hsub & _).
  unfold lambda_handler_with. rewrite Hgv, Hlist, Hst. cbn [negb].
  rewrite filter_status_is_truthy. fold sources.
  destruct sources as [|lg rest] eqn:Hsrc.
  - cbn [truthy orb negb]. eexists _, w1, []. split; [reflexivity|].
    rewrite app_nil_r. cbn [List.length]. repeat split; try lia. exact Hsub.
  - cbn [truthy orb negb].
    destruct (export_each_completes gv fuel P Hfuel (lg :: rest) [] w1)
      as (out & w2 & Hrun).
    destruct (export_each_counts _ _ _ _ _ _ _ _ Hrun)
      as (Hc2 & Hp2 & (news & Hs2 & Hl2) & Hret).
    rewrite Hrun.
    assert (G : forall o : Completion RunResp,
               (forall res, o = Returns res -> exists tasks, out = Returns tasks) ->
               (checks w2 <= checks w + List.length (lg :: rest))%nat /\
               (forall res, o = Returns res ->
                            checks w2 = (checks w + List.length (lg :: rest))%nat) /\
               submissions w2 = submissions w ++ news /\
               (List.length news <= List.length (lg :: rest))%nat /\
               (polls w2 <= polls w + List.length (lg :: rest) *
                                      polls_before_timeout
                                        (timeout_or_default (time_out gv)))%nat).
    { intros o Ho. split; [lia|]. split.
      - intros res Hres. destruct (Ho res Hres) as (tasks & Ht).
        specialize (Hret tasks Ht). lia.
      - split; [congruence|]. split; [exact Hl2 | lia]. }
    destruct out as [tasks|e].
    + eexists _, w2, news. split; [reflexivity|]. apply G. eauto.
    + eexists _, w2, news. split; [reflexivity|]. apply G. discriminate.
Qed.

Lemma run_makes_bounded_calls_witness :
  (exists out w2 news,
      lambda_handler 8 (Examples.scripted ["RUNNING"; "COMPLETED"; "COMPLETED"]%string [])
        [] = Some (out, w2) /\
      (checks w2 <= 2)%nat /\
      (forall res, out = Returns res -> checks w2 = 2%nat) /\
      submissions w2 = news /\
      (List.length news <= 2)%nat /\ (polls w2 <= 16)%nat) /\
  lambda_handler 8 (Examples.unreachable ["COMPLETED"]%string 1) [] =
    Some (Raises "Could not connect to the endpoint URL",
          [ DescribeLogGroups None;
            HeadBucket "cw-log-exports-01";
            CreateExportTask
              (build_request (Examples.unreachable ["COMPLETED"]%string 1)
                 "/aws/lambda/indian-space-facts" "cw-log-exports-01"
                 [DescribeLogGroups None]
                 {| n1_day := 1692137600123456; n_day := 1692224000123456;
                    f_time := 1692137600123; t_time := 1692224000123 |});
            DescribeExportTasks "task-1";
            HeadBucket "cw-log-exports-01" ]).
Proof.
  split; [|reflexivity].
  exact (run_makes_bounded_calls set_global_vars 8
           (Examples.scripted ["RUNNING"; "COMPLETED"; "COMPLETED"]%string []) [] _ _
           eq_refl eq_refl eq_refl ltac:(vm_compute; lia)).
Defined.

(** X15.  When the dates are in range and the bucket check passes every
    time, a run whose listing succeeds submits exactly one request per
    source, in the order of the sources, each for the log group name of its
    source and for the configured bucket.  Nothing is remembered from one
    run to the next: a second run submits them all again. *)
Theorem run_submits_each_source_once gv fuel P w lgs w1 :
  gv_status gv = true ->
  get_cloudwatch_log_groups fuel P gv w = Some (lgs, w1) ->
  lgs_status lgs = true ->
  (polls_before_timeout (timeout_or_default (time_out gv)) <= fuel)%nat ->
  dates_in_range P (retention_days gv) ->
  (forall h, head_bucket P h (log_dest_bkt gv) = HeadBucketOk) ->
  let sources := log_groups (filter_logs_to_export gv lgs) in
  exists res w2 news,
    lambda_handler_with gv fuel P w = Some (Returns res, w2) /\
    submissions w2 = submissions w ++ news /\
    map req_logGroupName news = map logGroupName sources /\
    Forall (fun req => destination req = log_dest_bkt gv) news.
Proof.
  intros Hgv Hlist Hst Hfuel Hdates Hok sources.
  destruct (handler_runs_exports gv fuel P w lgs w1 Hgv Hlist Hst Hfuel Hdates)
    as (res & w2 & tasks & Hrun & Hrel & _).
  { intros h. now rewrite Hok. }
  destruct (listing_effects _ _ _ _ _ _ Hlist)
    as (_ & _ & _ & _ & _ & _ & _ & Hsub & _).
  destruct (exported_with_bucket _ _ _ _ _ _ _ Hok Hrel) as (news & Hs & Hnames & Hdest).
  exists res, w2, news. split; [exact Hrun|]. split; [congruence|].
  split; assumption.
Qed.

Lemma run_submits_each_source_once_witness :
  exists res w2 news,
    lambda_handler 8 (Examples.scripted ["COMPLETED"; "COMPLETED"]%string []) [] =
      Some (Returns res, w2) /\
    submissions w2 = news /\
    map req_logGroupName news =
      ["/aws/lambda/indian-space-facts"; "/aws/lambda/Asislambda"]%string /\
    Forall (fun req => destination req = "cw-log-exports-01"%string) news.
Proof.
  exact (run_submits_each_source_once set_global_vars 8
           (Examples.scripted ["COMPLETED"; "COMPLETED"]%string []) [] _ _
           eq_refl eq_refl eq_refl ltac:(vm_compute; lia)
           (fun h => ex_intro _ _ eq_refl) (fun h => eq_refl)).
Defined.

(** X16.  When the dates are in range and the bucket check raises a
    [ClientError] every time, a run with at least one source still reports
    success: it holds one failed response per source, none with task
    information, and it has submitted no request, polled no task and never
    slept. *)
Theorem run_without_bucket_succeeds gv fuel P w lgs w1 :
  gv_status gv = true ->
  get_cloudwatch_log_groups fuel P gv w = Some (lgs, w1) ->
  lgs_status lgs = true ->
  dates_in_range P (retention_days gv) ->
  (forall h, exists code msg,
      head_bucket P h (log_dest_bkt gv) = HeadBucketClientError code msg) ->
  log_groups (filter_logs_to_export gv lgs) <> [] ->
  exists tasks w2,
    lambda_handler_with gv fuel P w =
      Some (Returns {| run_status := true; run_error_message := ""; lgs := None;
                       export_tasks := Some tasks |}, w2) /\
    List.length tasks = List.length (log_groups (filter_logs_to_export gv lgs)) /\
    Forall (fun resp => status resp = false /\ task_info resp = None) tasks /\
    submissions w2 = submissions w /\ polls w2 = polls w /\ sleeps w2 = sleeps w.
Proof.
  intros Hgv Hlist Hst Hdates Hno Hsrc.
  assert (Hloop : forall sources acc h,
             exists resps h',
               export_each fuel P gv sources acc h = Some (Returns (acc ++ resps), h') /\
               exported fuel P gv h sources resps h').
  { induction sources as [|lg rest IH]; intros acc h.
    - exists [], h. simpl. rewrite app_nil_r. split; [reflexivity | constructor].
    - destruct (Hno h) as (code & msg & Hb). destruct (Hdates h) as (period & Hperiod).
      assert (Hexp : export_cw_logs_to_s3 fuel P gv (logGroupName lg) (retention_days gv)
                       (log_dest_bkt gv) h =
                     Some (Returns {| status := false; task_info := None;
                                      error_message := msg |},
                           h ++ [HeadBucket (log_dest_bkt gv)])).
      { unfold export_cw_logs_to_s3.
        now rewrite Hperiod, (does_bucket_exists_fails _ _ _ _ _ Hb). }
      destruct (IH (acc ++ [{| status := false; task_info := None; error_message := msg |}])
                  (h ++ [HeadBucket (log_dest_bkt gv)])) as (resps & h' & Hrun & Hrel).
      eexists (_ :: resps), h'. simpl. rewrite Hexp, Hrun, <- app_assoc.
      split; [reflexivity | econstructor; eassumption]. }
  destruct (Hloop (log_groups (filter_logs_to_export gv lgs)) [] w1)
    as (tasks & w2 & Hrun & Hrel).
  destruct (listing_effects _ _ _ _ _ _ Hlist)
    as (_ & _ & _ & _ & _ & Hp & Hsl & Hsub & _).
  destruct (exported_without_bucket _ _ _ _ _ _ _ Hno Hrel) as (Hall & Hs2 & Hp2 & Hsl2).
  exists tasks, w2. split.
  - unfold lambda_handler_with. rewrite Hgv, Hlist, Hst. cbn [negb].
    rewrite filter_status_is_truthy.
    destruct (log_groups (filter_logs_to_export gv lgs)) as [|lg rest]; [congruence|].
    cbn [truthy orb negb]. now rewrite Hrun.
  - split; [eapply exported_length; eassumption|].
    split; [exact Hall|]. repeat split; congruence.
Qed.

Lemma run_without_bucket_succeeds_witness :
  exists tasks w2,
    lambda_handler 0 (Examples.no_bucket []) [] =
      Some (Returns {| run_status := true; run_error_message := ""; lgs := None;
                       export_tasks := Some tasks |}, w2) /\
    List.length tasks = 2%nat /\
    Forall (fun resp => status resp = false /\ task_info resp = None) tasks /\
    submissions w2 = [] /\ polls w2 = 0%nat /\ sleeps w2 = [].
Proof.
  exact (run_without_bucket_succeeds set_global_vars 0 (Examples.no_bucket []) [] _ _
           eq_refl eq_refl eq_refl
           (fun h => ex_intro _ _ eq_refl)
           (fun h => ex_intro _ "403"%string (ex_intro _ "Forbidden"%string eq_refl))
           ltac:(vm_compute; discriminate)).
Defined.

(** X17.  The status of an export tells how far the export got, not how
    the task ended.  With fuel for the poller an export completes.  It
    raises when the dates of the period are out of range, before any call,
    and when the bucket check raises an exception that is not a
    [ClientError], after that check.  Otherwise it returns, and its status is
    true exactly when the bucket check passed and the export service
    accepted the request; a failed export carries no task information. *)
Theorem export_status_is_submission_status gv fuel P name rd bucket w :
  (polls_before_timeout (timeout_or_default (time_out gv)) <= fuel)%nat ->
  exists out w',
    export_cw_logs_to_s3 fuel P gv name rd bucket w = Some (out, w') /\
    match export_period P rd (now P w) with
    | Raises e => out = Raises e /\ w' = w
    | Returns period =>
        match head_bucket P w bucket with
        | HeadBucketRaises e => out = Raises e /\ w' = w ++ [HeadBucket bucket]
        | _ =>
            exists resp,
              out = Returns resp /\
              (status resp = true <->
               head_bucket P w bucket = HeadBucketOk /\
               exists tsk_id,
                 create_export_task P (w ++ [HeadBucket bucket])
                   (build_request P name bucket w period) = CreateExportTaskOk tsk_id) /\
              (status resp = false -> task_info resp = None)
        end
    end.
Proof.
  intros Hfuel. unfold export_cw_logs_to_s3.
  destruct (export_period P rd (now P w)) as [period|e]; [|eauto].
  destruct (head_bucket P w bucket) as [|code msg|e] eqn:Hb.
  - rewrite (does_bucket_exists_ok _ _ _ Hb). cbn [bkt_status negb].
    fold (build_request P name bucket w period).
    destruct (create_export_task P (w ++ [HeadBucket bucket])
                (build_request P name bucket w period)) as [tsk_id|e].
    + destruct (get_tsk_status_halts P tsk_id (time_out gv)
                  ((w ++ [HeadBucket bucket]) ++
                   [CreateExportTask (build_request P name bucket w period)]))
        as (r & w' & k & Hrun & _).
      rewrite (Hrun fuel Hfuel). eexists _, _. split; [reflexivity|].
      eexists. split; [reflexivity|]. cbn [status task_info]. split; [|discriminate].
      split; [intros _; split; [reflexivity | eauto] | reflexivity].
    + eexists _, _. split; [reflexivity|]. eexists. split; [reflexivity|].
      cbn [status task_info]. split; [|reflexivity].
      split; [discriminate | intros (_ & tsk_id & H); discriminate].
  - rewrite (does_bucket_exists_fails _ _ _ _ _ Hb). cbn [bkt_status negb].
    eexists _, _. split; [reflexivity|]. eexists. split; [reflexivity|].
    cbn [status task_info]. split; [|reflexivity].
    split; [discriminate | intros (H & _); discriminate].
  - rewrite (does_bucket_exists_raises _ _ _ _ Hb). eauto.
Qed.

Lemma export_status_is_submission_status_witness :
  (exists resp w',
      export_cw_logs_to_s3 8 (Examples.stuck "FAILED") set_global_vars
        "/aws/lambda/Asislambda" (Some 90) "cw-log-exports-01" [] =
        Some (Returns resp, w') /\
      status resp = true) /\
  export_cw_logs_to_s3 8 (Examples.unreachable [] 0) set_global_vars
    "/aws/lambda/Asislambda" (Some 90) "cw-log-exports-01" [] =
    Some (Raises "Could not connect to the endpoint URL", [HeadBucket "cw-log-exports-01"]) /\
  export_cw_logs_to_s3 8 (Examples.at_instant Datetime.min) set_global_vars
    "/aws/lambda/Asislambda" (Some 90) "cw-log-exports-01" [] =
    Some (Raises "date value out of range", []).
Proof.
  split; [|split; reflexivity].
  destruct (export_status_is_submission_status set_global_vars 8 (Examples.stuck "FAILED")
              "/aws/lambda/Asislambda" (Some 90) "cw-log-exports-01" []
              ltac:(vm_compute; lia)) as (out & w' & Hexp & Hshape).
  cbv beta iota in Hshape.
  assert (E : export_period (Examples.stuck "FAILED") (Some 90)
                (now (Examples.stuck "FAILED") []) =
              Returns {| n1_day := 1692137600123456; n_day := 1692224000123456;
                         f_time := 1692137600123; t_time := 1692224000123 |})
    by reflexivity.
  rewrite E in Hshape. cbn [head_bucket Examples.stuck Examples.scripted existsb] in Hshape.
  destruct Hshape as (resp & -> & Hst & _).
  exists resp, w'. split; [exact Hexp|].
  apply Hst. split; [reflexivity | exists "task-1"%string; reflexivity].
Defined.
